(** * DBIIReplay: capture-device discovery, scoring and preview loop

    A shallow embedding of
      - [client/display/capture.py]  (enumeration, scoring, selection),
      - [main.py]                    ([ensure_config]),
      - [client/menu/window.py]      ([VideoCaptureThread]),
    together with the properties of the design document that concern them.

    Conventions.  A Python [str] is a [string]; its characters are read as
    the code points 0..255, on which [str.lower], [str.strip] and
    [str.splitlines] act character by character.  A Python [int] is a [Z].
    [None] is [None]; a function that may raise returns a [result]. *)

From Stdlib Require Import ZArith String Ascii List Bool Lia.
From Stdlib Require Import SpecFloat.
From stdpp Require Import base option list gmap strings.
Import ListNotations.

Local Open Scope string_scope.
Local Open Scope Z_scope.

(** ** Python built-ins used by the sources *)

Module Py.

(** Code point of a character. *)
Definition ord (c : ascii) : N := N_of_ascii c.

(** [str.lower] on one character: A..Z and the capital letters of the
    upper half (0xC0..0xDE without the multiplication sign 0xD7) move up
    by 32, every other character is kept. *)
Definition lower_char (c : ascii) : ascii :=
  let n := ord c in
  if ((65 <=? n) && (n <=? 90))%N then ascii_of_N (n + 32)
  else if ((192 <=? n) && (n <=? 222) && negb (n =? 215))%N then ascii_of_N (n + 32)
  else c.

(** [s.lower()] *)
Fixpoint lower (s : string) : string :=
  match s with
  | EmptyString => EmptyString
  | String c s' => String (lower_char c) (lower s')
  end.

(** [len(s)] *)
Definition len (s : string) : Z := Z.of_nat (String.length s).

(** [s.startswith(p)] *)
Fixpoint startswith (p s : string) : bool :=
  match p, s with
  | EmptyString, _ => true
  | String _ _, EmptyString => false
  | String a p', String b s' => if Ascii.eqb a b then startswith p' s' else false
  end.

(** [k in s] for strings: [k] occurs in [s] as a contiguous block. *)
Fixpoint str_in (k s : string) : bool :=
  startswith k s ||
  match s with
  | EmptyString => false
  | String _ s' => str_in k s'
  end.

(** [a < b] on strings: lexicographic on code points, a proper prefix is
    smaller. *)
Fixpoint str_ltb (a b : string) : bool :=
  match a, b with
  | _, EmptyString => false
  | EmptyString, String _ _ => true
  | String x a', String y b' =>
      if (ord x <? ord y)%N then true
      else if (ord x =? ord y)%N then str_ltb a' b'
      else false
  end.

(** [a < b] on the pairs [(int, str)]: the first components decide unless
    they are equal. *)
Definition tuple_ltb (a b : Z * string) : bool :=
  if a.1 <? b.1 then true
  else if a.1 =? b.1 then str_ltb a.2 b.2
  else false.

(** [sorted(l, reverse=True)] on such pairs.  The sort is stable and
    [reverse=True] keeps the original order of equal elements, so an
    element is placed in front of everything to its right that is not
    strictly greater. *)
Fixpoint insert_desc (x : Z * string) (l : list (Z * string)) : list (Z * string) :=
  match l with
  | [] => [x]
  | y :: l' => if tuple_ltb x y then y :: insert_desc x l' else x :: y :: l'
  end.

Fixpoint sorted_reverse (l : list (Z * string)) : list (Z * string) :=
  match l with
  | [] => []
  | x :: l' => insert_desc x (sorted_reverse l')
  end.

(** [c.isspace()] for the code points 0..255: tab, line feed, vertical
    tab, form feed, carriage return, the separators 0x1C..0x1F, space,
    next line (0x85) and no-break space (0xA0). *)
Definition isspace (c : ascii) : bool :=
  let n := ord c in
  ((9 <=? n) && (n <=? 13) || (28 <=? n) && (n <=? 32) || (n =? 133) || (n =? 160))%N.

(** The line boundaries of [str.splitlines] other than carriage return:
    line feed, vertical tab, form feed, 0x1C..0x1E and next line. *)
Definition is_linebreak (c : ascii) : bool :=
  let n := ord c in
  ((n =? 10) || (n =? 11) || (n =? 12) || (28 <=? n) && (n <=? 30) || (n =? 133))%N.

Definition is_cr (c : ascii) : bool := (ord c =? 13)%N.
Definition is_lf (c : ascii) : bool := (ord c =? 10)%N.

Definition is_empty (s : string) : bool :=
  match s with EmptyString => true | String _ _ => false end.

(** [s.lstrip(...)], [s.rstrip(...)], [s.strip(...)] for a set of
    characters given as a predicate. *)
Fixpoint lstrip_by (p : ascii -> bool) (s : string) : string :=
  match s with
  | EmptyString => EmptyString
  | String c s' => if p c then lstrip_by p s' else s
  end.

Fixpoint rstrip_by (p : ascii -> bool) (s : string) : string :=
  match s with
  | EmptyString => EmptyString
  | String c s' =>
      let r := rstrip_by p s' in
      if is_empty r && p c then EmptyString else String c r
  end.

Definition strip_by (p : ascii -> bool) (s : string) : string :=
  rstrip_by p (lstrip_by p s).

(** [s.strip()] *)
Definition strip (s : string) : string := strip_by isspace s.

(** [s.strip(chars)] *)
Definition strip_chars (chars : string) (s : string) : string :=
  strip_by (fun c => existsb (Ascii.eqb c) (list_ascii_of_string chars)) s.

(** [s.endswith(p)] *)
Fixpoint endswith (p s : string) : bool :=
  String.eqb p s ||
  match s with
  | EmptyString => false
  | String _ s' => endswith p s'
  end.

(** [s.splitlines()]: [cur] is the line read so far.  A carriage return
    directly followed by a line feed is one boundary; no empty line is
    produced after a final boundary. *)
Fixpoint splitlines_from (cur : string) (s : string) : list string :=
  match s with
  | EmptyString => if is_empty cur then [] else [cur]
  | String c s' =>
      if is_cr c then
        match s' with
        | String d s'' =>
            if is_lf d then cur :: splitlines_from EmptyString s''
            else cur :: splitlines_from EmptyString s'
        | EmptyString => [cur]
        end
      else if is_linebreak c then cur :: splitlines_from EmptyString s'
      else splitlines_from (cur ++ String c EmptyString) s'
  end.

Definition splitlines (s : string) : list string := splitlines_from EmptyString s.

(** [s.split(sep)] for a separator of one character: there is always at
    least one part. *)
Fixpoint split_from (sep : ascii) (cur : string) (s : string) : list string :=
  match s with
  | EmptyString => [cur]
  | String c s' =>
      if Ascii.eqb c sep then cur :: split_from sep EmptyString s'
      else split_from sep (cur ++ String c EmptyString) s'
  end.

Definition split (sep : ascii) (s : string) : list string :=
  split_from sep EmptyString s.

(** [s[i:]] and [s[:i]] for [0 <= i]. *)
Fixpoint drop_str (i : nat) (s : string) : string :=
  match i, s with
  | O, _ => s
  | S _, EmptyString => EmptyString
  | S i', String _ s' => drop_str i' s'
  end.

Fixpoint take_str (i : nat) (s : string) : string :=
  match i, s with
  | O, _ => EmptyString
  | S _, EmptyString => EmptyString
  | S i', String c s' => String c (take_str i' s')
  end.

(** [s.rfind(c)] for one character: the last index of [c], if any. *)
Fixpoint rfind (c : ascii) (s : string) : option nat :=
  match s with
  | EmptyString => None
  | String d s' =>
      match rfind c s' with
      | Some i => Some (S i)
      | None => if Ascii.eqb d c then Some O else None
      end
  end.

(** Exceptions, all of them subclasses of [Exception]. *)
Inductive exn :=
  | FileNotFoundError
  | PermissionError
  | TimeoutExpired
  | UnicodeDecodeError
  | JSONDecodeError
  | ValueError
  | OtherException (msg : string).

(** The outcome of a call: a value, or a raised exception. *)
Inductive result (A : Type) :=
  | Ok (a : A)
  | Raise (e : exn).
Arguments Ok {A} a.
Arguments Raise {A} e.

(** [list(dict.fromkeys(l))]: the keys of a dict filled from left to
    right; a key that is already present keeps its slot. *)
Definition add_key (keys : list string) (x : string) : list string :=
  if bool_decide (x ∈ keys) then keys else (keys ++ [x])%list.

Definition dict_fromkeys (l : list string) : list string :=
  fold_left add_key l [].

End Py.

(** ** The outside world: files, external commands, the [json] module *)

Module Sys.
Import Py.

(** A JSON document as [json.load] returns it. *)
#[local] Set Warnings "-register-all".
Inductive json :=
  | JNull
  | JBool (b : bool)
  | JInt (n : Z)
  | JFloat (f : spec_float)
  | JStr (s : string)
  | JList (l : list json)
  | JDict (d : gmap string json).

(** Truth value of a document in an [if]. *)
Definition truthy (v : json) : bool :=
  match v with
  | JNull => false
  | JBool b => b
  | JInt n => negb (n =? 0)
  | JFloat f => match f with S754_zero _ => false | _ => true end
  | JStr s => negb (is_empty s)
  | JList l => match l with [] => false | _ :: _ => true end
  | JDict d => match map_to_list d with [] => false | _ :: _ => true end
  end.

(** [isinstance(v, dict)] *)
Definition is_dict (v : json) : bool :=
  match v with JDict _ => true | _ => false end.

(** [v == s] for a string literal [s]. *)
Definition eq_str (v : json) (s : string) : bool :=
  match v with JStr t => String.eqb t s | _ => false end.

(** A file: its text and whether it can be opened for reading and for
    writing. *)
Record File := { text : string; readable : bool; writable : bool }.

(** What [subprocess.run] returns when the command ran to its end. *)
Record CompletedProcess := { returncode : Z; stdout : string; stderr : string }.

(** The calls a run makes to the outside, in order.  [EvChoose] records a
    call of the scorer's [choose_best_device]. *)
Inductive Event :=
  | EvRun (argv : list string) (timeout : Z)
  | EvChoose (devices : list string)
  | EvWrite (path : string) (data : string)
  | EvRename (src dst : string).

Record World := { files : gmap string File; trace : list Event }.

(** What the sources take from their environment: the behaviour of the
    external commands ([subprocess.run] raises on a launch failure or a
    timeout and otherwise returns the completed process whatever its exit
    status), the [json] parser and printer ([json_dumps ensure_ascii v],
    always with [indent=4]), and the location of [config.json]. *)
Record Env := {
  subprocess_run : list string -> Z -> result CompletedProcess;
  json_loads : string -> option json;
  json_dumps : bool -> json -> string;
  config_path : string
}.

(** The same environment with other behaviour of the commands. *)
Definition with_commands (env : Env)
    (run : list string -> Z -> result CompletedProcess) : Env :=
  {| subprocess_run := run; json_loads := json_loads env;
     json_dumps := json_dumps env; config_path := config_path env |}.

(** Computations that read and change the world and may raise. *)
Definition M (A : Type) : Type := World -> World * result A.

Definition ret {A} (a : A) : M A := fun w => (w, Ok a).

Definition raise {A} (e : exn) : M A := fun w => (w, Raise e).

Definition bind {A B} (m : M A) (k : A -> M B) : M B :=
  fun w =>
    match m w with
    | (w', Ok a) => k a w'
    | (w', Raise e) => (w', Raise e)
    end.

(** [try: m  except Exception: h]; what [m] did to the world before it
    raised stays done. *)
Definition try_except {A} (m : M A) (h : exn -> M A) : M A :=
  fun w =>
    match m w with
    | (w', Ok a) => (w', Ok a)
    | (w', Raise e) => h e w'
    end.

(** The world after the calls [evs] that leave the files alone. *)
Definition log (w : World) (evs : list Event) : World :=
  {| files := files w; trace := trace w ++ evs |}.

Definition emit (ev : Event) : M unit :=
  fun w => (log w [ev], Ok tt).

(** [open(p, 'r')] followed by reading the whole file. *)
Definition read_file (p : string) : M string :=
  fun w =>
    match files w !! p with
    | None => (w, Raise FileNotFoundError)
    | Some f => if readable f then (w, Ok (text f)) else (w, Raise PermissionError)
    end.

(** [open(p, 'w')] followed by writing [data]: the file is created when
    it is missing and replaced when it can be written. *)
Definition write_file (p : string) (data : string) : M unit :=
  fun w =>
    let written f :=
      ({| files := <[p := f]> (files w); trace := trace w ++ [EvWrite p data] |}, Ok tt) in
    match files w !! p with
    | None => written {| text := data; readable := true; writable := true |}
    | Some f =>
        if writable f
        then written {| text := data; readable := readable f; writable := true |}
        else (w, Raise PermissionError)
    end.

(** [os.replace(src, dst)]: the file moves with all it has, and replaces
    whatever [dst] was. *)
Definition rename_file (src dst : string) : M unit :=
  fun w =>
    match files w !! src with
    | None => (w, Raise FileNotFoundError)
    | Some f =>
        ({| files := <[dst := f]> (delete src (files w));
            trace := trace w ++ [EvRename src dst] |}, Ok tt)
    end.

Definition file_exists (p : string) : M bool :=
  fun w => (w, Ok (bool_decide (is_Some (files w !! p)))).

(** [subprocess.run(argv, capture_output=True, text=True, timeout=t)] *)
Definition run_process (env : Env) (argv : list string) (t : Z) : M CompletedProcess :=
  fun w =>
    (log w [EvRun argv t], subprocess_run env argv t).

(** [json.loads] *)
Definition loads (env : Env) (s : string) : M json :=
  match json_loads env s with
  | Some v => ret v
  | None => raise JSONDecodeError
  end.

End Sys.

Declare Scope py_scope.
Notation "'let!' x ':=' c1 'in' c2" := (Sys.bind c1 (fun x => c2))
  (at level 10, x name, c1 at level 100, c2 at level 200) : py_scope.
Notation "'do!' c1 'in' c2" := (Sys.bind c1 (fun _ => c2))
  (at level 10, c1 at level 100, c2 at level 200) : py_scope.

(** ** [client/display/capture.py]: the scorer *)

Module Capture.
Import Py Sys.
Local Open Scope py_scope.

Definition weights : list (string * Z) :=
  [ ("elgato", 50); ("blackmagic", 50); ("avermedia", 45); ("hauppauge", 45);
    ("capture", 30); ("video", 40); ("hdmi", 25); ("usb", 10); ("webcam", 12);
    ("camera", 5); ("cam", 4) ].

(** The body of [for k, w in weights]. *)
Definition add_weight (n : string) (score : Z) (kw : string * Z) : Z :=
  if str_in kw.1 n then score + kw.2 else score.

Definition score_device_name (name : string) : Z :=
  let n := lower name in
  let score := 0 in
  let score := fold_left (add_weight n) weights score in
  let score := if 20 <? len n then score + 2 else score in
  score.

Definition choose_best_device (devices : list string) : option string :=
  match devices with
  | [] => None
  | _ =>
      let scored := sorted_reverse (map (fun d => (score_device_name d, d)) devices) in
      match scored with
      | (best_score, best_name) :: _ => Some best_name
      | [] => None
      end
  end.

(** *** The enumerator *)

Definition dquote : ascii := ascii_of_N 34.
Definition dquote_str : string := String dquote EmptyString.
Definition newline_str : string := String (ascii_of_N 10) EmptyString.

Definition _run_powershell (env : Env) (command : string) (timeout : Z) : M string :=
  let! completed := run_process env ["powershell"; "-NoProfile"; "-Command"; command] timeout in
  ret (strip (stdout completed)).

Definition _run_cmd (env : Env) (cmd : list string) (timeout : Z)
  : M (Z * string * string) :=
  let! proc := run_process env cmd timeout in
  ret (returncode proc, strip (stdout proc), strip (stderr proc)).

Definition filter_keywords : string :=
  "Elgato|Blackmagic|AVerMedia|Hauppauge|Capture|HDMI|USB|Camera|Cam".

Definition ps_cmd : string :=
  "Get-CimInstance Win32_PnPEntity | Where-Object -Property Name -Match '"
    ++ filter_keywords ++ "' | Select-Object -ExpandProperty Name".

Definition ps_cmd_camera : string :=
  "Get-PnpDevice -Class Camera | Select-Object -ExpandProperty FriendlyName".

Definition ps_cmd_all : string :=
  "Get-CimInstance Win32_PnPEntity | Select-Object -ExpandProperty Name".

Definition keywords : list string :=
  ["elgato"; "blackmagic"; "avermedia"; "hauppauge"; "capture"; "hdmi"; "usb";
   "camera"; "cam"].

(** [[line.strip() for line in out.splitlines() if line.strip()]] *)
Definition stripped_lines (out : string) : list string :=
  map strip (List.filter (fun line => negb (is_empty (strip line))) (splitlines out)).

(** The loop of the last registry query: names with a keyword are
    appended to [candidates]. *)
Definition keep_keyword_names (candidates all_names : list string) : list string :=
  fold_left
    (fun (candidates : list string) name =>
       let nl := lower name in
       if existsb (fun k => str_in k nl) keywords then (candidates ++ [name])%list
       else candidates)
    all_names candidates.

(** One [try] block of [find_capture_devices_pnp]: [Some l] when the
    block returns [l], [None] when control falls out of it (empty output,
    or an exception that [except Exception: pass] swallows). *)
Definition pnp_query (env : Env) (command : string)
    (names : string -> list string) : M (option (list string)) :=
  try_except
    (let! out := _run_powershell env command 6 in
     if negb (is_empty out)
     then ret (Some (dict_fromkeys (names out)))
     else ret None)
    (fun _ => ret None).

Definition find_capture_devices_pnp (env : Env) : M (list string) :=
  let candidates : list string := [] in
  let! r := pnp_query env ps_cmd stripped_lines in
  match r with
  | Some l => ret l
  | None =>
      let! r := pnp_query env ps_cmd_camera stripped_lines in
      match r with
      | Some l => ret l
      | None =>
          let! r := pnp_query env ps_cmd_all
                      (fun out => keep_keyword_names candidates (stripped_lines out)) in
          match r with
          | Some l => ret l
          | None => ret []
          end
      end
  end.

(** The body of [for line in text.splitlines()] in the ffmpeg fallback. *)
Definition ffmpeg_line (devices : list string) (line : string) : list string :=
  let line := strip line in
  if is_empty line then devices
  else if startswith dquote_str line && endswith dquote_str line
  then (devices ++ [strip_chars dquote_str line])%list
  else if str_in dquote_str line then
    let parts := split dquote line in
    if (3 <=? length parts)%nat then
      let name := strip (nth 1 parts EmptyString) in
      if negb (is_empty name) then (devices ++ [name])%list else devices
    else devices
  else devices.

Definition ffmpeg_cmds : list (list string) :=
  [ ["ffmpeg"; "-list_devices"; "true"; "-f"; "dshow"; "-i"; "dummy"] ].

(** [for cmd in cmds: try: ... except Exception: continue] *)
Fixpoint ffmpeg_loop (env : Env) (cmds : list (list string)) (devices : list string)
  : M (list string) :=
  match cmds with
  | [] => ret devices
  | cmd :: cmds' =>
      let! devices :=
        try_except
          (let! r := _run_cmd env cmd 8 in
           let '(rc, out, err) := r in
           let text := out ++ newline_str ++ err in
           ret (fold_left ffmpeg_line (splitlines text) devices))
          (fun _ => ret devices) in
      ffmpeg_loop env cmds' devices
  end.

Definition find_capture_devices_ffmpeg (env : Env) : M (list string) :=
  let! devices := ffmpeg_loop env ffmpeg_cmds [] in
  ret (dict_fromkeys devices).

Definition find_capture_devices (env : Env) : M (list string) :=
  let! pnp := find_capture_devices_pnp env in
  match pnp with
  | _ :: _ => ret pnp
  | [] => find_capture_devices_ffmpeg env
  end.

(** *** Configuration and the selection *)

(** [path or config_path()] *)
Definition path_or_default (env : Env) (path : option string) : string :=
  match path with
  | Some p => if is_empty p then config_path env else p
  | None => config_path env
  end.

Definition load_config (env : Env) (path : option string) : M json :=
  let p := path_or_default env path in
  try_except
    (let! s := read_file p in loads env s)
    (fun _ => ret (JDict ∅)).

Definition save_config (env : Env) (cfg : json) (path : option string) : M unit :=
  let p := path_or_default env path in
  write_file p (json_dumps env false cfg).

(** [cfg.get(key)] on a dict; [None] stands for Python's [None]. *)
Definition dict_get (d : gmap string json) (key : string) : option json := d !! key.

(** [if cfg.get(key):] *)
Definition get_truthy (d : gmap string json) (key : string) : bool :=
  match dict_get d key with
  | Some v => truthy v
  | None => false
  end.

(** [cfg.get('source') != 'capture'] *)
Definition source_is_not_capture (d : gmap string json) : bool :=
  match dict_get d "source" with
  | Some v => negb (eq_str v "capture")
  | None => true
  end.

Definition ensure_default_capture_device (env : Env) (dry_run : bool)
  : M (option json) :=
  let! cfg := load_config env None in
  match cfg with
  | JDict d =>
      if source_is_not_capture d then ret None
      else if get_truthy d "device" then ret (dict_get d "device")
      else
        let! devices := find_capture_devices env in
        do! emit (EvChoose devices) in
        let best := choose_best_device devices in
        match best with
        | Some b =>
            if negb (is_empty b) then
              let cfg := JDict (<["device" := JStr b]> d) in
              do! (if negb dry_run then save_config env cfg None else ret tt) in
              ret (Some (JStr b))
            else ret None
        | None => ret None
        end
  | _ => ret None
  end.

End Capture.


(** ** [main.py]: [ensure_config] *)

Module Main.
Import Py Sys.
Local Open Scope py_scope.

(** A [pathlib.Path]: the final component [name], which holds no
    separator, and everything in front of it. *)
Record Path := { parent : string; name : string }.

Definition path_str (p : Path) : string := parent p ++ name p.

(** [path.suffix]: the name from its last dot on, unless that dot is the
    first or the last character of the name. *)
Definition suffix (p : Path) : string :=
  let n := String.length (name p) in
  match rfind "." (name p) with
  | Some i => if ((0 <? i) && (i <? n - 1))%nat then drop_str i (name p) else EmptyString
  | None => EmptyString
  end.

(** [path.with_suffix(suffix)]: [ValueError] for an empty name and for a
    suffix that is not of the form [.xyz]; otherwise the old suffix, if
    any, is replaced.  (The test that [suffix] holds no separator is left
    out: the only suffix passed here is made from the name.) *)
Definition with_suffix (p : Path) (new_suffix : string) : result Path :=
  if negb (is_empty new_suffix) && negb (startswith "." new_suffix)
     || String.eqb new_suffix "."
  then Raise ValueError
  else if is_empty (name p) then Raise ValueError
  else
    let old_suffix := suffix p in
    if is_empty old_suffix
    then Ok {| parent := parent p; name := name p ++ new_suffix |}
    else Ok {| parent := parent p;
               name := take_str (String.length (name p) - String.length old_suffix) (name p)
                         ++ new_suffix |}.

Definition lift {A} (r : result A) : M A := fun w => (w, r).

Definition DEFAULT_CONFIG : json :=
  JDict {[ "window" :=
             JDict (<["title" := JStr "DBII Replay"]>
                      (<["width" := JInt 800]> {[ "height" := JInt 600 ]})) ]}.

(** The [except] block of [ensure_config]: back up the bad config and
    recreate. *)
Definition recreate (env : Env) (path : Path) : M json :=
  let! backup := lift (with_suffix path (suffix path ++ ".bad")) in
  do! rename_file (path_str path) (path_str backup) in
  do! write_file (path_str path) (json_dumps env true DEFAULT_CONFIG) in
  ret DEFAULT_CONFIG.

Definition ensure_config (env : Env) (path : Path) : M json :=
  let! present := file_exists (path_str path) in
  if negb present then
    do! write_file (path_str path) (json_dumps env true DEFAULT_CONFIG) in
    ret DEFAULT_CONFIG
  else
    try_except
      (let! s := read_file (path_str path) in loads env s)
      (fun _ => recreate env path).

End Main.

(** ** [client/menu/window.py]: [VideoCaptureThread] *)

Module Window.
Import Py.

Section Thread.
(** A frame as [cv2] delivers it, the image handed to the consumer, and
    the conversion between them ([cvtColor], [QImage], [copy]). *)
Context {Frame QImage : Type} (to_qimage : Frame -> QImage).

(** [cv2.VideoCapture(...)] raises, or returns a handle whose
    [isOpened()] is the given flag. *)
Inductive open_result :=
  | OpenRaises (e : exn)
  | Opens (isOpened : bool).

(** [cap.read()] raises, or returns [(ret, frame)]. *)
Inductive read_result :=
  | ReadRaises (e : exn)
  | Reads (ret : bool) (frame : option Frame).

(** The capture backend: whether [cv2] could be imported, what the two
    ways of opening do, and what the successive reads of an open handle
    return.  A handle that is not open reads [(False, None)]. *)
Record Cv2 := {
  cv2_present : bool;
  open_by_name : string -> open_result;
  open_by_index : Z -> open_result;
  device_read : nat -> read_result
}.

(** Where [run] stands.  [RFinally exc] is the [finally] block, entered
    with the exception in flight if any; [RDone exc] is the end of
    [run], by return or by that exception. *)
Inductive RunPc :=
  | RStart
  | ROpenName
  | RCheckOpened
  | ROpenIndex
  | RLoopCheck
  | RRead
  | RSleepRetry
  | REmit (frame : Frame)
  | RSleep
  | RFinally (exc : option exn)
  | RDone (exc : option exn).

(** Where [stop] stands in the host's thread. *)
Inductive StopPc :=
  | SSetFlag
  | SRelease
  | SWait
  | SDone.

(** The thread object, the handle behind [self._cap], and what has been
    observed so far: the frames emitted through [frameReady], the calls
    of [release()] and how many of them found the handle open, the
    number of frames emitted when [stop] cleared the flag, and the
    number emitted when the loop condition was next evaluated. *)
Record State := {
  device_name : string;
  _running : bool;
  _cap : option bool;
  run_pc : RunPc;
  stop_pc : StopPc;
  reads_done : nat;
  emitted : list QImage;
  release_calls : nat;
  closes : nat;
  stop_mark : option nat;
  boundary_mark : option nat
}.

(** [VideoCaptureThread(device_name)], not yet started. *)
Definition init (device : string) : State :=
  {| device_name := device; _running := true; _cap := None;
     run_pc := RStart; stop_pc := SSetFlag;
     reads_done := 0; emitted := []; release_calls := 0; closes := 0;
     stop_mark := None; boundary_mark := None |}.

Definition set_run_pc (pc : RunPc) (s : State) : State :=
  {| device_name := device_name s; _running := _running s; _cap := _cap s;
     run_pc := pc; stop_pc := stop_pc s;
     reads_done := reads_done s; emitted := emitted s;
     release_calls := release_calls s; closes := closes s;
     stop_mark := stop_mark s; boundary_mark := boundary_mark s |}.

Definition set_stop_pc (pc : StopPc) (s : State) : State :=
  {| device_name := device_name s; _running := _running s; _cap := _cap s;
     run_pc := run_pc s; stop_pc := pc;
     reads_done := reads_done s; emitted := emitted s;
     release_calls := release_calls s; closes := closes s;
     stop_mark := stop_mark s; boundary_mark := boundary_mark s |}.

Definition set_cap (cap : option bool) (s : State) : State :=
  {| device_name := device_name s; _running := _running s; _cap := cap;
     run_pc := run_pc s; stop_pc := stop_pc s;
     reads_done := reads_done s; emitted := emitted s;
     release_calls := release_calls s; closes := closes s;
     stop_mark := stop_mark s; boundary_mark := boundary_mark s |}.

(** [if self._cap is not None: self._cap.release()] *)
Definition release_if_any (s : State) : State :=
  match _cap s with
  | None => s
  | Some opened =>
      {| device_name := device_name s; _running := _running s; _cap := Some false;
         run_pc := run_pc s; stop_pc := stop_pc s;
         reads_done := reads_done s; emitted := emitted s;
         release_calls := S (release_calls s);
         closes := if opened then S (closes s) else closes s;
         stop_mark := stop_mark s; boundary_mark := boundary_mark s |}
  end.

(** [self._cap.read()] *)
Definition cap_read (cv2 : Cv2) (s : State) : State * read_result :=
  match _cap s with
  | Some true =>
      ({| device_name := device_name s; _running := _running s; _cap := _cap s;
          run_pc := run_pc s; stop_pc := stop_pc s;
          reads_done := S (reads_done s); emitted := emitted s;
          release_calls := release_calls s; closes := closes s;
          stop_mark := stop_mark s; boundary_mark := boundary_mark s |},
       device_read cv2 (reads_done s))
  | _ => (s, Reads false None)
  end.

(** [self.frameReady.emit(qimg.copy())] *)
Definition frameReady_emit (q : QImage) (s : State) : State :=
  {| device_name := device_name s; _running := _running s; _cap := _cap s;
     run_pc := run_pc s; stop_pc := stop_pc s;
     reads_done := reads_done s; emitted := emitted s ++ [q];
     release_calls := release_calls s; closes := closes s;
     stop_mark := stop_mark s; boundary_mark := boundary_mark s |}.

(** The loop condition is evaluated: the first time after [stop]
    cleared the flag, the number of frames emitted so far is noted. *)
Definition note_boundary (s : State) : State :=
  match stop_mark s, boundary_mark s with
  | Some _, None =>
      {| device_name := device_name s; _running := _running s; _cap := _cap s;
         run_pc := run_pc s; stop_pc := stop_pc s;
         reads_done := reads_done s; emitted := emitted s;
         release_calls := release_calls s; closes := closes s;
         stop_mark := stop_mark s;
         boundary_mark := Some (length (emitted s)) |}
  | _, _ => s
  end.

(** One step of [run]. *)
Definition step_run (cv2 : Cv2) (s : State) : State :=
  match run_pc s with
  | RStart =>
      if cv2_present cv2 then set_run_pc ROpenName s
      else set_run_pc (RDone None) s
  | ROpenName =>
      match open_by_name cv2 ("dshow:video=" ++ device_name s) with
      | OpenRaises e => set_run_pc (RFinally (Some e)) s
      | Opens o => set_run_pc RCheckOpened (set_cap (Some o) s)
      end
  | RCheckOpened =>
      match _cap s with
      | Some false => set_run_pc ROpenIndex s
      | _ => set_run_pc RLoopCheck s
      end
  | ROpenIndex =>
      match open_by_index cv2 0 with
      | OpenRaises _ => set_run_pc (RFinally None) s
      | Opens o => set_run_pc RLoopCheck (set_cap (Some o) s)
      end
  | RLoopCheck =>
      let s := note_boundary s in
      if _running s && bool_decide (is_Some (_cap s))
      then set_run_pc RRead s
      else set_run_pc (RFinally None) s
  | RRead =>
      match cap_read cv2 s with
      | (s, ReadRaises e) => set_run_pc (RFinally (Some e)) s
      | (s, Reads true (Some frame)) => set_run_pc (REmit frame) s
      | (s, Reads _ _) => set_run_pc RSleepRetry s
      end
  | RSleepRetry => set_run_pc RLoopCheck s
  | REmit frame => set_run_pc RSleep (frameReady_emit (to_qimage frame) s)
  | RSleep => set_run_pc RLoopCheck s
  | RFinally exc => set_run_pc (RDone exc) (release_if_any s)
  | RDone _ => s
  end.

(** [self._running = False] *)
Definition clear_running (s : State) : State :=
  {| device_name := device_name s; _running := false; _cap := _cap s;
     run_pc := run_pc s; stop_pc := stop_pc s;
     reads_done := reads_done s; emitted := emitted s;
     release_calls := release_calls s; closes := closes s;
     stop_mark := Some (length (emitted s)); boundary_mark := boundary_mark s |}.

(** One step of [stop]. *)
Definition step_stop (s : State) : State :=
  match stop_pc s with
  | SSetFlag => set_stop_pc SRelease (clear_running s)
  | SRelease => set_stop_pc SWait (release_if_any s)
  | SWait => set_stop_pc SDone s
  | SDone => s
  end.

(** The two threads, and a run of them under a schedule. *)
Inductive Tid := TRun | TStop.

Definition step (cv2 : Cv2) (s : State) (t : Tid) : State :=
  match t with
  | TRun => step_run cv2 s
  | TStop => step_stop s
  end.

Definition exec (cv2 : Cv2) (sched : list Tid) (s : State) : State :=
  fold_left (step cv2) sched s.

Definition run_finished (s : State) : bool :=
  match run_pc s with RDone _ => true | _ => false end.

Definition stop_finished (s : State) : bool :=
  match stop_pc s with SDone => true | _ => false end.

(** The loop is streaming: it holds an open handle, is inside the
    [while], and [stop] has been called but has not done anything
    yet. *)
Definition streaming (s : State) : Prop :=
  _running s = true /\ _cap s = Some true /\
  (run_pc s = RLoopCheck \/ run_pc s = RRead \/ run_pc s = RSleepRetry \/
   (exists f, run_pc s = REmit f) \/ run_pc s = RSleep) /\
  stop_pc s = SSetFlag /\
  release_calls s = 0%nat /\ closes s = 0%nat /\
  stop_mark s = None /\ boundary_mark s = None.

(** Bookkeeping for the proofs about [stop]. *)

Definition in_loop (pc : RunPc) : bool :=
  match pc with
  | RLoopCheck | RRead | RSleepRetry | REmit _ | RSleep => true
  | _ => false
  end.

Definition leaving (pc : RunPc) : bool :=
  match pc with
  | RFinally _ | RDone _ => true
  | _ => false
  end.

Definition before_emit (pc : RunPc) : bool :=
  match pc with
  | RRead | REmit _ => true
  | _ => false
  end.

(** Calls of [release()] made so far by [stop] and by [run]. *)
Definition stop_released (pc : StopPc) : nat :=
  match pc with
  | SWait | SDone => 1
  | _ => 0
  end.

Definition run_released (pc : RunPc) : nat :=
  match pc with
  | RDone _ => 1
  | _ => 0
  end.

(** Steps [run] still takes once the flag is cleared, at most. *)
Definition steps_left (pc : RunPc) : nat :=
  match pc with
  | RRead => 5
  | REmit _ => 4
  | RSleep | RSleepRetry => 3
  | RLoopCheck => 2
  | RFinally _ => 1
  | RDone _ => 0
  | _ => 9
  end.

(** What holds of every state that a streaming loop and a call of [stop]
    reach together. *)
Definition stop_invariant (s : State) : Prop :=
  in_loop (run_pc s) || leaving (run_pc s) = true /\
  _cap s = Some (Nat.eqb (release_calls s) 0) /\
  release_calls s = (stop_released (stop_pc s) + run_released (run_pc s))%nat /\
  closes s = Nat.min 1 (release_calls s) /\
  _running s = match stop_pc s with SSetFlag => true | _ => false end /\
  match stop_mark s with
  | None => stop_pc s = SSetFlag /\ boundary_mark s = None
  | Some n =>
      stop_pc s <> SSetFlag /\
      (length (emitted s) <= n + 1)%nat /\
      (before_emit (run_pc s) = true -> length (emitted s) = n)
  end /\
  match boundary_mark s with
  | None => True
  | Some n => length (emitted s) = n /\ leaving (run_pc s) = true
  end.

(** What holds while [run] polls a handle that never opened. *)
Definition polling_invariant (device : string) (s : State) : Prop :=
  device_name s = device /\ _running s = true /\ emitted s = [] /\
  release_calls s = 0%nat /\ stop_mark s = None /\
  match run_pc s with
  | RStart | ROpenName => _cap s = None
  | RCheckOpened | ROpenIndex | RLoopCheck | RRead | RSleepRetry => _cap s = Some false
  | _ => False
  end.

(** "The device handle is released exactly once": when both [run] and
    [stop] are through, [release()] has been called once. *)
Definition released_exactly_once (cv2 : Cv2) (sched : list Tid) (s : State) : Prop :=
  let s' := exec cv2 sched s in
  run_finished s' = true -> stop_finished s' = true -> release_calls s' = 1%nat.

End Thread.

(** A backend on which the device opens by name and every read gives the
    next frame; one on which neither way of opening gives an open handle;
    the conversion of frames is the identity on frame numbers. *)
Definition cv2_working : Cv2 (Frame := nat) :=
  {| cv2_present := true;
     open_by_name := fun _ => Opens true;
     open_by_index := fun _ => Opens true;
     device_read := fun n => Reads true (Some n) |}.

Definition cv2_no_device : Cv2 (Frame := nat) :=
  {| cv2_present := true;
     open_by_name := fun _ => Opens false;
     open_by_index := fun _ => Opens false;
     device_read := fun n => Reads false None |}.

(** The thread for "USB Video Device" on the working backend, once [run]
    has opened the device and stands at the loop condition. *)
Definition streaming_sample : State (Frame := nat) (QImage := nat) :=
  exec (fun n => n) cv2_working [TRun; TRun; TRun] (init "USB Video Device").

End Window.

(** ** The design document's wording of the scorer and of the selection *)

Module Design.
Import Py.

(** [k] is a substring of [n]. *)
Definition occurs_in (k n : string) : Prop :=
  exists pre suf, n = pre ++ k ++ suf.

(** The weight table of the design document. *)
Definition weight_table : list (string * Z) :=
  [ ("elgato", 50); ("blackmagic", 50); ("avermedia", 45); ("hauppauge", 45);
    ("capture", 30); ("video", 40); ("hdmi", 25); ("usb", 10); ("webcam", 12);
    ("camera", 5); ("cam", 4) ].

(** [keyword_sum n table total]: [total] is the sum of the weights of the
    entries of [table] whose keyword is a substring of [n]. *)
Inductive keyword_sum (n : string) : list (string * Z) -> Z -> Prop :=
  | keyword_sum_nil : keyword_sum n [] 0
  | keyword_sum_hit k w table total :
      occurs_in k n -> keyword_sum n table total ->
      keyword_sum n ((k, w) :: table) (w + total)
  | keyword_sum_miss k w table total :
      ~ occurs_in k n -> keyword_sum n table total ->
      keyword_sum n ((k, w) :: table) total.

(** The length bonus. *)
Definition length_bonus (n : string) : Z :=
  if 20 <? len n then 2 else 0.

(** "The first candidate reaching the maximum score in enumeration order
    wins": [r] is none for no candidates, and otherwise the candidate at
    some position [i] that no candidate beats and that every earlier
    candidate scores strictly less than. *)
Definition first_listed_wins (score : string -> Z) (devices : list string)
    (r : option string) : Prop :=
  match devices with
  | [] => r = None
  | _ :: _ =>
      exists (i : nat) (b : string),
        r = Some b /\ nth_error devices i = Some b /\
        (forall d, In d devices -> score d <= score b) /\
        (forall (j : nat) d, (j < i)%nat -> nth_error devices j = Some d -> score d < score b)
  end.

(** Position of the first occurrence of [x] in [l] ([length l] when there
    is none). *)
Fixpoint first_index (x : string) (l : list string) : nat :=
  match l with
  | [] => 0%nat
  | y :: l' => if String.eqb x y then 0%nat else S (first_index x l')
  end.

(** The entries of [l], counted from position [i], that satisfy [keep]. *)
Fixpoint keep_at (keep : nat -> string -> bool) (i : nat) (l : list string) : list string :=
  match l with
  | [] => []
  | x :: l' => if keep i x then x :: keep_at keep (S i) l' else keep_at keep (S i) l'
  end.

(** "First-seen order, no duplicates": of [l], exactly the entries that
    stand where their name occurs for the first time, in the order of
    [l]. *)
Definition first_occurrences (l : list string) : list string :=
  keep_at (fun i x => Nat.eqb (first_index x l) i) 0 l.

(** "First non-empty result wins". *)
Fixpoint first_nonempty (results : list (list string)) : list string :=
  match results with
  | [] => []
  | [] :: results' => first_nonempty results'
  | (x :: l) :: _ => x :: l
  end.

(** The four strategies of the enumerator, each as the names its query
    puts out, in the order of that output: nothing when the command raises
    (launch failure, timeout) or prints nothing, whatever the exit
    status. *)
Definition powershell_argv (command : string) : list string :=
  ["powershell"; "-NoProfile"; "-Command"; command].

Definition query_output (env : Sys.Env) (command : string) : string :=
  match Sys.subprocess_run env (powershell_argv command) 6 with
  | Ok proc => strip (Sys.stdout proc)
  | Raise _ => EmptyString
  end.

Definition raw_names (env : Sys.Env) (strategy : nat) : list string :=
  match strategy with
  | 1%nat => Capture.stripped_lines (query_output env Capture.ps_cmd)
  | 2%nat => Capture.stripped_lines (query_output env Capture.ps_cmd_camera)
  | 3%nat =>
      Capture.keep_keyword_names []
        (Capture.stripped_lines (query_output env Capture.ps_cmd_all))
  | 4%nat =>
      match Sys.subprocess_run env
              ["ffmpeg"; "-list_devices"; "true"; "-f"; "dshow"; "-i"; "dummy"] 8 with
      | Ok proc =>
          fold_left Capture.ffmpeg_line
            (splitlines (strip (Sys.stdout proc) ++ Capture.newline_str
                           ++ strip (Sys.stderr proc))) []
      | Raise _ => []
      end
  | _ => []
  end.

Definition strategy_result (env : Sys.Env) (strategy : nat) : list string :=
  dict_fromkeys (raw_names env strategy).

(** The command of each strategy, and the commands an enumeration runs:
    each one in turn, as long as the strategies before it gave nothing. *)
Definition strategy_command (strategy : nat) : list Sys.Event :=
  match strategy with
  | 1%nat => [Sys.EvRun (powershell_argv Capture.ps_cmd) 6]
  | 2%nat => [Sys.EvRun (powershell_argv Capture.ps_cmd_camera) 6]
  | 3%nat => [Sys.EvRun (powershell_argv Capture.ps_cmd_all) 6]
  | 4%nat => [Sys.EvRun ["ffmpeg"; "-list_devices"; "true"; "-f"; "dshow"; "-i"; "dummy"] 8]
  | _ => []
  end.

Fixpoint commands_run (env : Sys.Env) (strategies : list nat) : list Sys.Event :=
  match strategies with
  | [] => []
  | k :: rest =>
      (strategy_command k
         ++ match strategy_result env k with [] => commands_run env rest | _ :: _ => [] end)%list
  end.

(** A command "fails" in the sense of the design document: it cannot be
    launched or times out (it raises), or it exits with a non-zero
    status. *)
Definition fails_as_stated (r : result Sys.CompletedProcess) : Prop :=
  match r with
  | Raise _ => True
  | Ok proc => Sys.returncode proc <> 0
  end.

(** "First-seen order, no duplicates" for the outcome [r] of an
    enumeration: it is a list without repetition, made of the names that
    one of the strategies (or none of them, [k = 0]) read from its query
    output, each at its first occurrence. *)
Definition first_seen_no_duplicates (env : Sys.Env) (r : result (list string)) : Prop :=
  exists devices k,
    r = Ok devices /\
    (k <= 4)%nat /\
    NoDup devices /\
    devices = first_occurrences (raw_names env k) /\
    (forall x, In x devices <-> In x (raw_names env k)).

(** The enumerator's contract as the design document states it: when
    every command fails in that sense, the enumeration is empty. *)
Definition every_failure_skipped (env : Sys.Env) (w : Sys.World) : Prop :=
  (forall argv t, fails_as_stated (Sys.subprocess_run env argv t)) ->
  (Capture.find_capture_devices env w).2 = Ok [].

(** An environment in which every command prints [HDMI Capture] and then
    exits with status 1, and an empty world. *)
Definition env_exit_1 : Sys.Env :=
  {| Sys.subprocess_run := fun _ _ =>
       Ok {| Sys.returncode := 1; Sys.stdout := "HDMI Capture"; Sys.stderr := EmptyString |};
     Sys.json_loads := fun _ => None;
     Sys.json_dumps := fun _ _ => EmptyString;
     Sys.config_path := "config.json" |}.

Definition empty_world : Sys.World := {| Sys.files := ∅; Sys.trace := [] |}.

(** What loading the file at [p] gives: its content when it can be
    read and parsed, the empty mapping otherwise. *)
Definition loaded (env : Sys.Env) (p : string) (w : Sys.World) : Sys.json :=
  match Sys.files w !! p with
  | Some f =>
      if Sys.readable f
      then match Sys.json_loads env (Sys.text f) with
           | Some v => v
           | None => Sys.JDict ∅
           end
      else Sys.JDict ∅
  | None => Sys.JDict ∅
  end.

(** The configuration file cannot be loaded: it is missing, cannot be
    read, or does not hold JSON. *)
Definition load_fails (env : Sys.Env) (p : string) (w : Sys.World) : Prop :=
  match Sys.files w !! p with
  | None => True
  | Some f => Sys.readable f = false \/ Sys.json_loads env (Sys.text f) = None
  end.

End Design.

(** ** Sample environments and worlds *)

Module Samples.
Import Py Sys.

Definition a_file (s : string) : File :=
  {| text := s; readable := true; writable := true |}.

(** A world whose [config.json] holds the text [s]. *)
Definition world_with_config (s : string) : World :=
  {| files := {[ "config.json" := a_file s ]}; trace := [] |}.

(** An environment whose [json] parser reads every text as [v] (or
    rejects every text), and whose commands cannot be launched. *)
Definition env_reading (v : option json) : Env :=
  {| subprocess_run := fun _ _ => Raise FileNotFoundError;
     json_loads := fun _ => v;
     json_dumps := fun _ _ => "{}";
     config_path := "config.json" |}.

Definition pinned_config : gmap string json :=
  <["source" := JStr "capture"]> {[ "device" := JStr "Elgato HD60" ]}.

Definition file_config : gmap string json :=
  {[ "source" := JStr "file" ]}.

Definition config_json : Main.Path :=
  {| Main.parent := EmptyString; Main.name := "config.json" |}.

End Samples.

(** ** The rest of the sources *)

(** *** [capture.py] run as a script *)

Module Script.
Import Py Sys Capture.
Local Open Scope py_scope.



End Script.

(** *** [MainWindow.__init__]: the start of the preview *)

Module Preview.
Import Py Sys Capture.
Local Open Scope py_scope.

(** [cfg.get('source') == 'capture'] *)
Definition source_is_capture (d : gmap string json) : bool :=
  match dict_get d "source" with
  | Some v => eq_str v "capture"
  | None => false
  end.

(** The last block of [MainWindow.__init__]: the configuration at
    [cfg_path] is read, and when it is a mapping whose source is "capture"
    and whose device is true, [_start_preview] is called with that device.
    The result is the device the preview is started with, if it is
    started; every exception is swallowed. *)
Definition preview_device (env : Env) (cfg_path : string) : M (option json) :=
  try_except
    (let! s := read_file cfg_path in
     let! cfg := loads env s in
     match cfg with
     | JDict d =>
         if source_is_capture d && get_truthy d "device"
         then ret (dict_get d "device")
         else ret None
     | _ => ret None
     end)
    (fun _ => ret None).

End Preview.

(** *** Words for the discovery run and for the stream of frames *)

Module Discovery.
Import Py Sys Capture Design.

(** What the enumerator returns. *)
Definition enumerated (env : Env) : list string :=
  first_nonempty
    [strategy_result env 1; strategy_result env 2; strategy_result env 3;
     strategy_result env 4].

(** What a discovery run logs before it decides: the commands and the
    call of the scorer. *)
Definition discovery_events (env : Env) : list Event :=
  (commands_run env [1; 2; 3; 4]%nat ++ [EvChoose (enumerated env)])%list.

(** The configuration file [f] loads as the mapping [d], which asks for
    capture and pins no device. *)
Definition unpinned (env : Env) (w : World) (f : File) (d : gmap string json) : Prop :=
  files w !! config_path env = Some f /\
  readable f = true /\
  json_loads env (text f) = Some (JDict d) /\
  source_is_not_capture d = false /\
  get_truthy d "device" = false.

(** The configuration with the device [b] written into it, and the file
    that holds it. *)
Definition pinned_cfg (d : gmap string json) (b : string) : json :=
  JDict (<["device" := JStr b]> d).

Definition pinned_file (env : Env) (f : File) (d : gmap string json) (b : string) : File :=
  {| text := json_dumps env false (pinned_cfg d b);
     readable := readable f; writable := true |}.

End Discovery.

Module Recovery.
Import Py Sys Main.

(** The file that [ensure_config] writes. *)
Definition default_file (env : Env) : File :=
  {| text := json_dumps env true DEFAULT_CONFIG; readable := true; writable := true |}.

(** The world after [ensure_config] has created the missing file. *)
Definition created (env : Env) (path : Path) (w : World) : World :=
  {| files := <[path_str path := default_file env]> (files w);
     trace := trace w ++ [EvWrite (path_str path) (json_dumps env true DEFAULT_CONFIG)] |}.

(** The world after [ensure_config] has moved the file [f] aside and
    written the defaults. *)
Definition recreated (env : Env) (path : Path) (f : File) (w : World) : World :=
  {| files := <[path_str path := default_file env]>
                (<[path_str path ++ ".bad" := f]> (delete (path_str path) (files w)));
     trace := trace w ++ [EvRename (path_str path) (path_str path ++ ".bad");
                          EvWrite (path_str path) (json_dumps env true DEFAULT_CONFIG)] |}.

End Recovery.

Module Acquisition.
Import Window.

Section Frames.
Context {Frame : Type}.

(** The frames that the first [n] reads of an open handle deliver. *)
Fixpoint frames_read (cv2 : Cv2 (Frame := Frame)) (n : nat) : list Frame :=
  match n with
  | O => []
  | S k =>
      (frames_read cv2 k ++
         match device_read cv2 k with
         | Reads true (Some frame) => [frame]
         | _ => []
         end)%list
  end.

(** The frame that has been read and is about to be emitted. *)
Definition in_flight (pc : RunPc (Frame := Frame)) : list Frame :=
  match pc with
  | REmit frame => [frame]
  | _ => []
  end.

(** No read raises. *)
Definition reads_never_raise (cv2 : Cv2 (Frame := Frame)) : Prop :=
  forall k e, device_read cv2 k <> ReadRaises e.

End Frames.

Section Bookkeeping.
Context {Frame QImage : Type} (to_qimage : Frame -> QImage).

(** What holds of the handle whatever the two threads do: before the
    first open there is none, the handle that the fallback replaces is
    closed, at the end of [run] none is open, and [release()] has been
    called at most once by each thread. *)
Definition handle_invariant (s : State (Frame := Frame) (QImage := QImage)) : Prop :=
  match run_pc s with
  | RStart | ROpenName => _cap s = None
  | ROpenIndex => _cap s = Some false
  | RDone _ => _cap s <> Some true
  | _ => True
  end /\
  (release_calls s <= stop_released (stop_pc s) + run_released (run_pc s))%nat.

(** What has been emitted is what has been read: the frames of the
    successful reads so far, converted and in their order; the frame of the
    last read is still to come when [run] stands before its emission. *)
Definition frames_invariant (cv2 : Cv2 (Frame := Frame))
    (s : State (Frame := Frame) (QImage := QImage)) : Prop :=
  match run_pc s with
  | REmit frame =>
      exists r, reads_done s = S r /\
                device_read cv2 r = Reads true (Some frame) /\
                emitted s = map to_qimage (frames_read cv2 r)
  | _ => emitted s = map to_qimage (frames_read cv2 (reads_done s))
  end.

(** The loop runs on an open handle and [stop] has not been called. *)
Definition streaming_alone (s : State (Frame := Frame) (QImage := QImage)) : Prop :=
  _running s = true /\ _cap s = Some true /\ in_loop (run_pc s) = true.

(** A measure of how far the loop has come: four per read, and the place
    within the iteration. *)
Definition progress (s : State (Frame := Frame) (QImage := QImage)) : nat :=
  4 * reads_done s +
  match run_pc s with
  | RLoopCheck => 4
  | RRead => 5
  | REmit _ => 2
  | RSleep | RSleepRetry => 3
  | _ => 0
  end.

End Bookkeeping.

End Acquisition.

(** *** More sample backends *)

Module ThreadSamples.
Import Py Window.

(** The device opens by name; its first three reads fail and every later
    read gives the next frame. *)
Definition cv2_warming_up : Cv2 (Frame := nat) :=
  {| cv2_present := true;
     open_by_name := fun _ => Opens true;
     open_by_index := fun _ => Opens true;
     device_read := fun n => if (n <? 3)%nat then Reads false None else Reads true (Some n) |}.

(** The open by name raises. *)
Definition cv2_name_raises : Cv2 (Frame := nat) :=
  {| cv2_present := true;
     open_by_name := fun _ => OpenRaises (OtherException "cv2.error");
     open_by_index := fun _ => Opens true;
     device_read := fun n => Reads true (Some n) |}.

(** The open by name gives a closed handle and the open by index
    raises. *)
Definition cv2_index_raises : Cv2 (Frame := nat) :=
  {| cv2_present := true;
     open_by_name := fun _ => Opens false;
     open_by_index := fun _ => OpenRaises (OtherException "cv2.error");
     device_read := fun n => Reads false None |}.

End ThreadSamples.

(** *** More sample environments *)

Module MoreSamples.
Import Py Sys.

Definition capture_config : gmap string json :=
  {[ "source" := JStr "capture" ]}.

Definition hdmi_config : gmap string json :=
  <["device" := JStr "HDMI Capture"]> capture_config.

(** Every command prints [HDMI Capture]; the text [unpinned] reads as a
    configuration that asks for capture, the text [pinned] as the same
    with the device [HDMI Capture], and a configuration is printed as the
    one or the other. *)
Definition env_hdmi : Env :=
  {| subprocess_run := fun _ _ =>
       Ok {| returncode := 0; stdout := "HDMI Capture"; stderr := EmptyString |};
     json_loads := fun s =>
       if String.eqb s "unpinned" then Some (JDict capture_config)
       else if String.eqb s "pinned" then Some (JDict hdmi_config)
       else if String.eqb s "default" then Some Main.DEFAULT_CONFIG
       else None;
     json_dumps := fun _ v =>
       match v with
       | JDict d =>
           match d !! "device", d !! "window" with
           | Some _, _ => "pinned"
           | None, Some _ => "default"
           | None, None => "unpinned"
           end
       | _ => "?"
       end;
     config_path := "config.json" |}.

(** The same with commands that cannot be launched. *)
Definition env_no_commands : Env :=
  with_commands env_hdmi (fun _ _ => Raise FileNotFoundError).

(** A world whose [config.json] cannot be written. *)
Definition world_read_only (s : string) : World :=
  {| files := {[ "config.json" := {| text := s; readable := true; writable := false |} ]};
     trace := [] |}.

(** A world whose [config.json] cannot be read. *)
Definition world_unreadable (s : string) : World :=
  {| files := {[ "config.json" := {| text := s; readable := false; writable := true |} ]};
     trace := [] |}.

End MoreSamples.

(** * Properties *)

(** ** Strings *)

Section StringFacts.
Import Py.

Lemma ascii_eqb_true (a b : ascii) : Ascii.eqb a b = true <-> a = b.
Proof. apply Ascii.eqb_eq. Qed.

Lemma str_app_nil_l (s : string) : EmptyString ++ s = s.
Proof. reflexivity. Qed.

Lemma str_app_cons (c : ascii) (a b : string) : String c a ++ b = String c (a ++ b).
Proof. reflexivity. Qed.

Lemma str_app_nil_r (s : string) : s ++ EmptyString = s.
Proof.
  induction s as [|c s IH]; [reflexivity |].
  now rewrite str_app_cons, IH.
Qed.

Lemma str_app_assoc (a b c : string) : (a ++ b) ++ c = a ++ (b ++ c).
Proof.
  induction a as [|x a IH]; [reflexivity |].
  now rewrite !str_app_cons, IH.
Qed.

Lemma str_app_length (a b : string) :
  String.length (a ++ b) = (String.length a + String.length b)%nat.
Proof.
  induction a as [|x a IH]; [reflexivity |].
  rewrite str_app_cons. simpl. now rewrite IH.
Qed.

Lemma startswith_spec (p s : string) :
  startswith p s = true <-> exists suf, s = p ++ suf.
Proof.
  revert s; induction p as [|a p IH]; intros s; simpl.
  - split; [intros _; now exists s | reflexivity].
  - destruct s as [|b s].
    + split; [discriminate | intros [suf H]; discriminate].
    + destruct (Ascii.eqb a b) eqn:E.
      * apply ascii_eqb_true in E; subst b. rewrite IH.
        split; intros [suf H]; exists suf.
        -- now rewrite str_app_cons, H.
        -- rewrite str_app_cons in H. now injection H.
      * split; [discriminate |].
        intros [suf H]. rewrite str_app_cons in H. injection H as Hab _. subst b.
        now rewrite Ascii.eqb_refl in E.
Qed.

Lemma str_in_spec (k s : string) :
  str_in k s = true <-> Design.occurs_in k s.
Proof.
  unfold Design.occurs_in.
  induction s as [|c s IH]; simpl.
  - rewrite orb_false_r, startswith_spec. split.
    + intros [suf H]. exists EmptyString, suf. exact H.
    + intros [pre [suf H]]. destruct pre; [now exists suf | discriminate].
  - rewrite orb_true_iff, startswith_spec, IH. split.
    + intros [[suf H] | [pre [suf H]]].
      * exists EmptyString, suf. exact H.
      * exists (String c pre), suf. now rewrite str_app_cons, H.
    + intros [pre [suf H]]. destruct pre as [|x pre].
      * left. now exists suf.
      * right. rewrite str_app_cons in H. injection H as _ H. now exists pre, suf.
Qed.

Lemma lower_length (s : string) : String.length (lower s) = String.length s.
Proof. induction s as [|c s IH]; simpl; [reflexivity | now rewrite IH]. Qed.

(** The order on strings. *)

Lemma str_ltb_irrefl (a : string) : str_ltb a a = false.
Proof.
  induction a as [|x a IH]; simpl; [reflexivity |].
  now rewrite N.ltb_irrefl, N.eqb_refl.
Qed.

Lemma ord_inj (x y : ascii) : ord x = ord y -> x = y.
Proof.
  unfold ord. intros H.
  rewrite <- (ascii_N_embedding x), <- (ascii_N_embedding y). now rewrite H.
Qed.

Lemma str_ltb_trans (a b c : string) :
  str_ltb a b = true -> str_ltb b c = true -> str_ltb a c = true.
Proof.
  revert b c; induction a as [|x a IH]; intros [|y b] [|z c]; simpl;
    try discriminate; try reflexivity.
  destruct (N.ltb_spec (ord x) (ord y)) as [Hxy|Hxy];
    destruct (N.ltb_spec (ord y) (ord z)) as [Hyz|Hyz];
    destruct (N.eqb_spec (ord x) (ord y)) as [Exy|Exy];
    destruct (N.eqb_spec (ord y) (ord z)) as [Eyz|Eyz];
    destruct (N.ltb_spec (ord x) (ord z)) as [Hxz|Hxz];
    destruct (N.eqb_spec (ord x) (ord z)) as [Exz|Exz];
    try discriminate; try reflexivity; try lia.
  apply IH.
Qed.

Lemma str_ltb_total (a b : string) :
  str_ltb a b = false -> str_ltb b a = false -> a = b.
Proof.
  revert b; induction a as [|x a IH]; intros [|y b]; simpl;
    try discriminate; try reflexivity.
  destruct (N.ltb_spec (ord x) (ord y)) as [Hxy|Hxy];
    destruct (N.ltb_spec (ord y) (ord x)) as [Hyx|Hyx];
    destruct (N.eqb_spec (ord x) (ord y)) as [Exy|Exy];
    destruct (N.eqb_spec (ord y) (ord x)) as [Eyx|Eyx];
    try discriminate; try lia.
  intros H1 H2. f_equal; [now apply ord_inj | now apply IH].
Qed.

(** The order on the scored pairs. *)

Lemma tuple_ltb_irrefl (a : Z * string) : tuple_ltb a a = false.
Proof.
  unfold tuple_ltb. now rewrite Z.ltb_irrefl, Z.eqb_refl, str_ltb_irrefl.
Qed.

Lemma tuple_ltb_trans (a b c : Z * string) :
  tuple_ltb a b = true -> tuple_ltb b c = true -> tuple_ltb a c = true.
Proof.
  unfold tuple_ltb.
  destruct (Z.ltb_spec a.1 b.1); destruct (Z.ltb_spec b.1 c.1);
    destruct (Z.eqb_spec a.1 b.1); destruct (Z.eqb_spec b.1 c.1);
    destruct (Z.ltb_spec a.1 c.1); destruct (Z.eqb_spec a.1 c.1);
    try discriminate; try reflexivity; try lia.
  apply str_ltb_trans.
Qed.

Lemma tuple_ltb_total (a b : Z * string) :
  tuple_ltb a b = false -> tuple_ltb b a = false -> a = b.
Proof.
  unfold tuple_ltb. destruct a as [sa na], b as [sb nb]; simpl.
  destruct (Z.ltb_spec sa sb); destruct (Z.ltb_spec sb sa);
    destruct (Z.eqb_spec sa sb); destruct (Z.eqb_spec sb sa);
    try discriminate; try lia.
  intros H1 H2. f_equal; [assumption | now apply str_ltb_total].
Qed.

(** [a >= b] is transitive. *)
Lemma tuple_geb_trans (a b c : Z * string) :
  tuple_ltb a b = false -> tuple_ltb b c = false -> tuple_ltb a c = false.
Proof.
  intros Hab Hbc. destruct (tuple_ltb a c) eqn:Hac; [|reflexivity].
  destruct (tuple_ltb b a) eqn:Hba.
  - now rewrite (tuple_ltb_trans b a c Hba Hac) in Hbc.
  - rewrite (tuple_ltb_total a b Hab Hba) in Hac. now rewrite Hac in Hbc.
Qed.

End StringFacts.

(** ** The scorer *)

Section Scorer.
Import Py Capture Design.

Lemma add_weight_fold_shift (n : string) (table : list (string * Z)) (acc : Z) :
  fold_left (add_weight n) table acc = acc + fold_left (add_weight n) table 0.
Proof.
  revert acc; induction table as [|kw table IH]; intros acc; simpl; [lia |].
  rewrite IH, (IH (add_weight n 0 kw)). unfold add_weight.
  destruct (str_in kw.1 n); lia.
Qed.

Lemma keyword_sum_fold (n : string) (table : list (string * Z)) :
  keyword_sum n table (fold_left (add_weight n) table 0).
Proof.
  induction table as [|[k w] table IH]; simpl; [constructor |].
  rewrite add_weight_fold_shift.
  assert (Hkw : add_weight n 0 (k, w) = if str_in k n then w else 0).
  { unfold add_weight; simpl. destruct (str_in k n); lia. }
  rewrite Hkw. destruct (str_in k n) eqn:E.
  - apply keyword_sum_hit; [now apply str_in_spec | exact IH].
  - rewrite Z.add_0_l.
    apply keyword_sum_miss; [|exact IH].
    intros H. apply str_in_spec in H. congruence.
Qed.

Lemma keyword_sum_unique (n : string) (table : list (string * Z)) (t1 t2 : Z) :
  keyword_sum n table t1 -> keyword_sum n table t2 -> t1 = t2.
Proof.
  intros H1; revert t2; induction H1; intros t2 H2; inversion H2; subst;
    try reflexivity; try contradiction.
  - f_equal. now apply IHkeyword_sum.
  - now apply IHkeyword_sum.
Qed.

Lemma keyword_sum_nonneg (n : string) (table : list (string * Z)) (t : Z) :
  Forall (fun kw => 0 <= kw.2) table -> keyword_sum n table t -> 0 <= t.
Proof.
  intros Hpos H; induction H; inversion Hpos; subst; simpl in *; try lia.
  - specialize (IHkeyword_sum ltac:(assumption)). lia.
  - now apply IHkeyword_sum.
Qed.

Lemma weights_nonneg : Forall (fun kw : string * Z => 0 <= kw.2) weights.
Proof. unfold weights. repeat constructor; simpl; lia. Qed.

Lemma score_device_name_unfold (name : string) :
  score_device_name name =
  fold_left (add_weight (lower name)) weights 0 + length_bonus (lower name).
Proof.
  unfold score_device_name, length_bonus, add_weight.
  destruct (20 <? len (lower name)); lia.
Qed.

(** C2.  The score of a name is the sum of the weights of the table's
    keywords that are substrings of the lower-cased name, plus 2 when the
    lower-cased name has more than 20 characters; that sum is the only
    one the table admits, the score is never negative, the empty string
    scores 0, and "USB Video Device" and "Elgato HD60" both score 50. *)
Theorem score_device_name_spec (name : string) :
  weights = weight_table /\
  (exists total,
      keyword_sum (lower name) weight_table total /\
      (forall total', keyword_sum (lower name) weight_table total' -> total' = total) /\
      score_device_name name = total + length_bonus (lower name)) /\
  0 <= score_device_name name /\
  score_device_name "" = 0 /\
  score_device_name "USB Video Device" = 50 /\
  score_device_name "Elgato HD60" = 50.
Proof.
  split; [reflexivity |].
  assert (Hsum := keyword_sum_fold (lower name) weights).
  split; [|split; [|repeat split; reflexivity]].
  - exists (fold_left (add_weight (lower name)) weights 0).
    split; [exact Hsum |]. split.
    + intros total' H. exact (keyword_sum_unique _ _ _ _ H Hsum).
    + apply score_device_name_unfold.
  - rewrite score_device_name_unfold.
    pose proof (keyword_sum_nonneg _ _ _ weights_nonneg Hsum).
    unfold length_bonus. destruct (20 <? len (lower name)); lia.
Qed.

(** The front of [sorted(..., reverse=True)] is a greatest element. *)
Lemma sorted_reverse_head (x : Z * string) (l : list (Z * string)) :
  exists m rest,
    sorted_reverse (x :: l) = m :: rest /\ In m (x :: l) /\
    forall y, In y (x :: l) -> tuple_ltb m y = false.
Proof.
  revert x; induction l as [|x' l IH]; intros x.
  - exists x, []. split; [reflexivity |]. split; [now left |].
    intros y [<- | []]. apply tuple_ltb_irrefl.
  - destruct (IH x') as [m [rest [Hs [Hin Hmax]]]].
    change (sorted_reverse (x :: x' :: l)) with (insert_desc x (sorted_reverse (x' :: l))).
    rewrite Hs. simpl. destruct (tuple_ltb x m) eqn:Hxm.
    + exists m, (insert_desc x rest). split; [reflexivity |].
      split; [now right |]. intros y [<- | Hy]; [|now apply Hmax].
      destruct (tuple_ltb m x) eqn:Hmx; [|reflexivity].
      pose proof (tuple_ltb_trans _ _ _ Hxm Hmx) as H.
      now rewrite tuple_ltb_irrefl in H.
    + exists x, (m :: rest). split; [reflexivity |].
      split; [now left |]. intros y [<- | Hy]; [apply tuple_ltb_irrefl |].
      exact (tuple_geb_trans _ _ _ Hxm (Hmax y Hy)).
Qed.

(** C1, as the code has it.  No candidates give none; otherwise the
    result is a candidate of maximum score, and among the candidates of
    maximum score it is the one whose name is greatest in the order of
    strings, wherever it stands in the list. *)
Theorem choose_best_device_greatest (devices : list string) :
  match devices with
  | [] => choose_best_device devices = None
  | _ :: _ =>
      exists b,
        choose_best_device devices = Some b /\ In b devices /\
        (forall d, In d devices -> score_device_name d <= score_device_name b) /\
        (forall d, In d devices -> score_device_name d = score_device_name b ->
                   d = b \/ str_ltb d b = true)
  end.
Proof.
  destruct devices as [|d0 devices]; [reflexivity |].
  set (pair := fun d : string => (score_device_name d, d)).
  destruct (sorted_reverse_head (pair d0) (map pair devices))
    as [[ms mn] [rest [Hs [Hin Hmax]]]].
  change (pair d0 :: map pair devices) with (map pair (d0 :: devices)) in Hin, Hmax.
  apply in_map_iff in Hin. destruct Hin as [b [Hb Hin]].
  unfold pair in Hb. injection Hb as <- <-.
  exists b. split; [|split; [exact Hin |]].
  - unfold choose_best_device. fold pair.
    change (map pair (d0 :: devices)) with (pair d0 :: map pair devices).
    now rewrite Hs.
  - assert (Hcmp : forall d, In d (d0 :: devices) -> tuple_ltb (pair b) (pair d) = false).
    { intros d Hd. apply Hmax. apply in_map_iff. now exists d. }
    split; intros d Hd.
    + specialize (Hcmp d Hd). unfold tuple_ltb, pair in Hcmp; simpl in Hcmp.
      destruct (Z.ltb_spec (score_device_name b) (score_device_name d));
        [discriminate | lia].
    + intros Heq. specialize (Hcmp d Hd). unfold tuple_ltb, pair in Hcmp; simpl in Hcmp.
      rewrite Heq, Z.ltb_irrefl, Z.eqb_refl in Hcmp.
      destruct (str_ltb d b) eqn:Hdb; [now right | left].
      now apply str_ltb_total.
Qed.

(** C1, as the design document has it, fails: with "Elgato HD60" listed
    first and "USB Video Device" second, both of score 50, the second is
    returned. *)
Lemma choose_best_device_not_first_listed :
  choose_best_device ["Elgato HD60"; "USB Video Device"] = Some "USB Video Device" /\
  ~ first_listed_wins score_device_name
      ["Elgato HD60"; "USB Video Device"]
      (choose_best_device ["Elgato HD60"; "USB Video Device"]).
Proof.
  split; [reflexivity |].
  intros [i [b [Hr [Hnth [_ Hprev]]]]].
  vm_compute in Hr. injection Hr as <-.
  destruct i as [|[|i]]; simpl in Hnth.
  - discriminate.
  - specialize (Hprev 0%nat "Elgato HD60" ltac:(lia) eq_refl).
    vm_compute in Hprev. discriminate.
  - destruct i; discriminate.
Qed.

End Scorer.

(** ** Deduplication *)

Section Dedup.
Import Py Design.

Lemma dict_fromkeys_fold (l : list string) : dict_fromkeys l = fold_left add_key l [].
Proof. reflexivity. Qed.

Lemma add_key_NoDup (keys : list string) (x : string) :
  NoDup keys -> NoDup (add_key keys x).
Proof.
  intros H. unfold add_key. case_bool_decide as Hx; [exact H |].
  apply NoDup_app. split; [exact H |]. split; [|apply NoDup_singleton].
  intros y Hy Hy'. apply list_elem_of_singleton in Hy'. now subst.
Qed.

Lemma fold_add_key_NoDup (l keys : list string) :
  NoDup keys -> NoDup (fold_left add_key l keys).
Proof.
  revert keys; induction l as [|x l IH]; intros keys H; simpl; [exact H |].
  apply IH. now apply add_key_NoDup.
Qed.

Lemma dict_fromkeys_NoDup (l : list string) : NoDup (dict_fromkeys l).
Proof. rewrite dict_fromkeys_fold. apply fold_add_key_NoDup. constructor. Qed.

Lemma fold_add_key_elem (l keys : list string) (x : string) :
  x ∈ fold_left add_key l keys <-> x ∈ keys \/ x ∈ l.
Proof.
  revert keys; induction l as [|y l IH]; intros keys; simpl.
  - split; [now left | intros [H | H]; [exact H | inversion H]].
  - rewrite IH. unfold add_key. case_bool_decide as Hy.
    + rewrite elem_of_cons. split; [tauto |].
      intros [H | [-> | H]]; tauto.
    + rewrite elem_of_app, list_elem_of_singleton, elem_of_cons. tauto.
Qed.

Lemma dict_fromkeys_In (l : list string) (x : string) :
  In x (dict_fromkeys l) <-> In x l.
Proof.
  rewrite <- !list_elem_of_In, dict_fromkeys_fold, fold_add_key_elem.
  split; [intros [H | H]; [inversion H | exact H] | now right].
Qed.

Lemma first_index_in (x : string) (pre l : list string) :
  x ∈ pre -> (first_index x (pre ++ l) < length pre)%nat.
Proof.
  induction pre as [|y pre IH]; intros H; [inversion H |].
  simpl. destruct (String.eqb_spec x y) as [E | E]; [lia |].
  apply elem_of_cons in H. destruct H as [H | H]; [contradiction |].
  specialize (IH H). lia.
Qed.

Lemma first_index_notin (x : string) (pre l : list string) :
  x ∉ pre -> first_index x (pre ++ x :: l) = length pre.
Proof.
  induction pre as [|y pre IH]; intros H; simpl.
  - now rewrite String.eqb_refl.
  - apply not_elem_of_cons in H. destruct H as [Hxy H].
    destruct (String.eqb_spec x y) as [E | E]; [contradiction |].
    now rewrite IH.
Qed.

Lemma fold_add_key_first (l pre keys : list string) :
  (forall x, x ∈ keys <-> x ∈ pre) ->
  fold_left add_key l keys =
  (keys ++ keep_at (fun i x => Nat.eqb (first_index x (pre ++ l)) i) (length pre) l)%list.
Proof.
  revert pre keys; induction l as [|x l IH]; intros pre keys Hk; simpl.
  - now rewrite app_nil_r.
  - assert (Hl : (pre ++ x :: l = (pre ++ [x]) ++ l)%list) by now rewrite <- app_assoc.
    assert (Hn : length (pre ++ [x]) = S (length pre)) by (rewrite length_app; simpl; lia).
    unfold add_key at 2. case_bool_decide as Hx.
    + pose proof (first_index_in x pre (x :: l) (proj1 (Hk x) Hx)) as Hlt.
      destruct (Nat.eqb_spec (first_index x (pre ++ x :: l)) (length pre)) as [E | _]; [lia |].
      rewrite (IH (pre ++ [x])%list keys), Hl, Hn; [reflexivity |].
      intros y. rewrite elem_of_app, list_elem_of_singleton, <- Hk.
      split; [tauto | intros [H | ->]; assumption].
    + assert (Hx' : x ∉ pre) by (intros H; apply Hx, Hk, H).
      rewrite (first_index_notin x pre l Hx'), Nat.eqb_refl.
      rewrite (IH (pre ++ [x])%list (keys ++ [x])%list), Hl, Hn.
      * now rewrite <- app_assoc.
      * intros y. rewrite !elem_of_app, Hk. tauto.
Qed.

Lemma dict_fromkeys_first_occurrences (l : list string) :
  dict_fromkeys l = first_occurrences l.
Proof.
  rewrite dict_fromkeys_fold. now rewrite (fold_add_key_first l [] []).
Qed.

End Dedup.

(** ** The enumerator *)

Section Enumerator.
Import Py Sys Capture Design.

Ltac case_N :=
  repeat match goal with
    | |- context [N.leb ?a ?b] => destruct (N.leb_spec a b)
    | |- context [N.eqb ?a ?b] => destruct (N.eqb_spec a b)
    end;
  simpl; try reflexivity; try discriminate; try lia.

Lemma is_cr_isspace (c : ascii) : is_cr c = true -> isspace c = true.
Proof. unfold is_cr, isspace. case_N. Qed.

Lemma is_linebreak_isspace (c : ascii) : is_linebreak c = true -> isspace c = true.
Proof. unfold is_linebreak, isspace. case_N. Qed.

Lemma lstrip_by_head (p : ascii -> bool) (s : string) :
  lstrip_by p s = EmptyString \/ exists c r, lstrip_by p s = String c r /\ p c = false.
Proof.
  induction s as [|c s IH]; simpl; [now left |].
  destruct (p c) eqn:E; [exact IH | right; now exists c, s].
Qed.

Lemma rstrip_by_head (p : ascii -> bool) (c : ascii) (r : string) :
  p c = false -> exists r', rstrip_by p (String c r) = String c r'.
Proof.
  intros E. simpl. rewrite E, andb_false_r. now eexists.
Qed.

Lemma strip_head (s : string) :
  strip s = EmptyString \/ exists c r, strip s = String c r /\ isspace c = false.
Proof.
  unfold strip, strip_by.
  destruct (lstrip_by_head isspace s) as [-> | [c [r [-> E]]]]; [now left | right].
  destruct (rstrip_by_head isspace c r E) as [r' ->]. now exists c, r'.
Qed.

Lemma strip_keeps_head (c : ascii) (r : string) :
  isspace c = false -> exists r', strip (String c r) = String c r'.
Proof.
  intros E. unfold strip, strip_by. simpl. rewrite E.
  now apply rstrip_by_head.
Qed.

Lemma splitlines_from_head (s cur : string) :
  cur <> EmptyString ->
  exists rest tail, splitlines_from cur s = (cur ++ rest) :: tail.
Proof.
  revert cur; induction s as [|c s IH]; intros cur Hcur; simpl.
  - destruct cur; [contradiction |]. simpl.
    eexists EmptyString, []. now rewrite str_app_nil_r.
  - destruct (is_cr c).
    + destruct s as [|d s'].
      * exists EmptyString, []. now rewrite str_app_nil_r.
      * destruct (is_lf d); eexists EmptyString, _; now rewrite str_app_nil_r.
    + destruct (is_linebreak c).
      * eexists EmptyString, _. now rewrite str_app_nil_r.
      * destruct (IH (cur ++ String c EmptyString)) as [rest [tail H]].
        { destruct cur; [contradiction | discriminate]. }
        rewrite H. exists (String c rest), tail. now rewrite str_app_assoc.
Qed.

(** Output that is not empty after [strip()] has a first line. *)
Lemma stripped_lines_nonempty (s : string) :
  strip s <> EmptyString -> stripped_lines (strip s) <> [].
Proof.
  intros Hne. destruct (strip_head s) as [H | [c [r [H E]]]]; [contradiction |].
  rewrite H. unfold stripped_lines, splitlines. simpl.
  destruct (is_cr c) eqn:Ecr; [apply is_cr_isspace in Ecr; congruence |].
  destruct (is_linebreak c) eqn:Elb; [apply is_linebreak_isspace in Elb; congruence |].
  destruct (splitlines_from_head r (EmptyString ++ String c EmptyString)) as [rest [tail Hs]];
    [discriminate |].
  rewrite Hs. rewrite str_app_nil_l, str_app_cons, str_app_nil_l.
  destruct (strip_keeps_head c rest E) as [r' Hr'].
  simpl. rewrite Hr'. simpl. discriminate.
Qed.

Lemma stripped_lines_empty : stripped_lines EmptyString = [].
Proof. reflexivity. Qed.

Lemma dict_fromkeys_nonempty (l : list string) : l <> [] -> dict_fromkeys l <> [].
Proof.
  destruct l as [|x l]; [contradiction |]. intros _ H.
  assert (Hx : In x (dict_fromkeys (x :: l))) by (apply dict_fromkeys_In; now left).
  now rewrite H in Hx.
Qed.

Lemma query_output_strip (env : Env) (command : string) :
  exists s, query_output env command = strip s.
Proof.
  unfold query_output. destruct (subprocess_run env _ _) as [proc | e].
  - now exists (stdout proc).
  - now exists EmptyString.
Qed.

(** One [try] block: the command is run once; the block returns when the
    stripped output is not empty. *)
Lemma pnp_query_run (env : Env) (command : string) (names : string -> list string)
    (w : World) :
  pnp_query env command names w =
  (log w [EvRun (powershell_argv command) 6],
   Ok (if is_empty (query_output env command) then None
       else Some (dict_fromkeys (names (query_output env command))))).
Proof.
  unfold pnp_query, try_except, _run_powershell, run_process, ret, query_output,
    powershell_argv.
  cbv [bind].
  destruct (subprocess_run env _ 6) as [proc | e]; [|reflexivity].
  now destruct (is_empty (strip (stdout proc))).
Qed.

Lemma log_log (w : World) (evs evs' : list Event) :
  log (log w evs) evs' = log w (evs ++ evs').
Proof. unfold log; simpl. now rewrite <- app_assoc. Qed.

Lemma log_nil (w : World) : log w [] = w.
Proof. destruct w; unfold log; simpl. now rewrite app_nil_r. Qed.

Lemma strategy_1_2_empty (env : Env) (command : string) :
  is_empty (query_output env command) = true ->
  dict_fromkeys (stripped_lines (query_output env command)) = [].
Proof.
  destruct (query_output env command); [reflexivity | discriminate].
Qed.

Lemma strategy_1_2_nonempty (env : Env) (command : string) :
  is_empty (query_output env command) = false ->
  dict_fromkeys (stripped_lines (query_output env command)) <> [].
Proof.
  intros H. destruct (query_output_strip env command) as [s Hs].
  rewrite Hs in *. apply dict_fromkeys_nonempty, stripped_lines_nonempty.
  intros E. now rewrite E in H.
Qed.

Lemma find_capture_devices_pnp_run (env : Env) (w : World) :
  find_capture_devices_pnp env w =
  (log w (commands_run env [1; 2; 3]%nat),
   Ok (first_nonempty [strategy_result env 1; strategy_result env 2; strategy_result env 3])).
Proof.
  unfold find_capture_devices_pnp, bind.
  rewrite pnp_query_run.
  unfold commands_run, strategy_result, raw_names, first_nonempty, strategy_command.
  destruct (is_empty (query_output env ps_cmd)) eqn:E1.
  - rewrite (strategy_1_2_empty env ps_cmd E1).
    rewrite pnp_query_run, log_log.
    destruct (is_empty (query_output env ps_cmd_camera)) eqn:E2.
    + rewrite (strategy_1_2_empty env ps_cmd_camera E2).
      rewrite pnp_query_run, log_log.
      destruct (is_empty (query_output env ps_cmd_all)) eqn:E3.
      * destruct (query_output env ps_cmd_all); [|discriminate].
        unfold ret. simpl. reflexivity.
      * unfold ret.
        destruct (dict_fromkeys (keep_keyword_names [] _)); reflexivity.
    + pose proof (strategy_1_2_nonempty env ps_cmd_camera E2) as Hne.
      unfold ret.
      destruct (dict_fromkeys (stripped_lines (query_output env ps_cmd_camera)));
        [contradiction | reflexivity].
  - pose proof (strategy_1_2_nonempty env ps_cmd E1) as Hne.
    unfold ret.
    destruct (dict_fromkeys (stripped_lines (query_output env ps_cmd)));
      [contradiction | reflexivity].
Qed.

Lemma find_capture_devices_ffmpeg_run (env : Env) (w : World) :
  find_capture_devices_ffmpeg env w =
  (log w (strategy_command 4), Ok (strategy_result env 4)).
Proof.
  unfold find_capture_devices_ffmpeg, ffmpeg_cmds, ffmpeg_loop, try_except,
    _run_cmd, run_process, ret, strategy_result, raw_names, strategy_command.
  cbv [bind].
  destruct (subprocess_run env _ 8) as [proc | e]; reflexivity.
Qed.

Lemma find_capture_devices_run (env : Env) (w : World) :
  find_capture_devices env w =
  (log w (commands_run env [1; 2; 3; 4]%nat),
   Ok (first_nonempty
         [strategy_result env 1; strategy_result env 2; strategy_result env 3;
          strategy_result env 4])).
Proof.
  unfold find_capture_devices, bind.
  rewrite find_capture_devices_pnp_run.
  unfold commands_run, first_nonempty.
  destruct (strategy_result env 1) as [|x1 l1]; [|reflexivity].
  destruct (strategy_result env 2) as [|x2 l2]; [|reflexivity].
  destruct (strategy_result env 3) as [|x3 l3]; [|reflexivity].
  rewrite find_capture_devices_ffmpeg_run, log_log.
  destruct (strategy_result env 4); simpl; now rewrite ?app_nil_r.
Qed.

Lemma first_nonempty_cases (results : list (list string)) :
  first_nonempty results = [] \/ In (first_nonempty results) results.
Proof.
  induction results as [|[|x l] results IH]; simpl; [now left | | right; now left].
  destruct IH as [H | H]; [now left | right; now right].
Qed.

Lemma first_nonempty_all_empty (results : list (list string)) :
  (forall l, In l results -> l = []) -> first_nonempty results = [].
Proof.
  induction results as [|[|x l] results IH]; intros H; simpl; [reflexivity | |].
  - apply IH. intros l Hl. apply H. now right.
  - specialize (H (x :: l) (or_introl eq_refl)). discriminate.
Qed.

Lemma strategy_raises_empty (env : Env) (k : nat) (argv : list string) (t : Z) (e : exn) :
  strategy_command k = [EvRun argv t] ->
  subprocess_run env argv t = Raise e ->
  strategy_result env k = [].
Proof.
  intros Hk He. unfold strategy_result, raw_names, query_output.
  destruct k as [|[|[|[|[|k]]]]]; simpl in Hk; try discriminate;
    injection Hk as <- <-; unfold powershell_argv in *; now rewrite He.
Qed.

(** C5, as the code has it.  [find_capture_devices] never raises and
    leaves the files alone.  It runs the four commands in their fixed
    order, each one only while the strategies before it gave no name, and
    returns the first result that is not empty, the empty list when there
    is none.  A strategy gives no name when its command raises (launch
    failure, timeout); the exit status of a command that ran is not looked
    at. *)
Theorem find_capture_devices_never_raises (env : Env) (w : World) :
  exists devices w',
    find_capture_devices env w = (w', Ok devices) /\
    files w' = files w /\
    trace w' = (trace w ++ commands_run env [1; 2; 3; 4]%nat)%list /\
    devices =
      first_nonempty
        [strategy_result env 1; strategy_result env 2; strategy_result env 3;
         strategy_result env 4] /\
    ((forall k, strategy_result env k = []) -> devices = []) /\
    (forall k argv t e,
        strategy_command k = [EvRun argv t] ->
        subprocess_run env argv t = Raise e ->
        strategy_result env k = []).
Proof.
  eexists _, _. split; [apply find_capture_devices_run |].
  split; [reflexivity |]. split; [reflexivity |]. split; [reflexivity |].
  split.
  - intros H. apply first_nonempty_all_empty. intros l Hl. simpl in Hl.
    destruct Hl as [<- | [<- | [<- | [<- | []]]]]; apply H.
  - apply strategy_raises_empty.
Qed.

(** C5, as the design document has it, fails: a command that exits with
    a non-zero status after printing a name is not skipped, so an
    enumeration in which every command fails in that way is not empty. *)
Lemma find_capture_devices_keeps_nonzero_exit :
  (forall argv t, fails_as_stated (subprocess_run env_exit_1 argv t)) /\
  find_capture_devices env_exit_1 empty_world =
    (log empty_world (strategy_command 1), Ok ["HDMI Capture"]) /\
  ~ every_failure_skipped env_exit_1 empty_world.
Proof.
  assert (Hfail : forall argv t, fails_as_stated (subprocess_run env_exit_1 argv t)).
  { intros argv t. simpl. lia. }
  assert (Hrun : find_capture_devices env_exit_1 empty_world =
                 (log empty_world (strategy_command 1), Ok ["HDMI Capture"])).
  { rewrite find_capture_devices_run. vm_compute. reflexivity. }
  split; [exact Hfail |]. split; [exact Hrun |].
  intros H. specialize (H Hfail). rewrite Hrun in H. discriminate.
Qed.

(** C6.  Whatever the commands do, the list that the enumerator and each
    of its two halves return holds no name twice, and it consists of the
    names that one of the strategies read from its query output (or of no
    name at all), each kept at its first occurrence and in the order of
    that output. *)
Theorem enumerator_first_seen_no_duplicates (env : Env) (w : World) :
  first_seen_no_duplicates env (find_capture_devices_pnp env w).2 /\
  first_seen_no_duplicates env (find_capture_devices_ffmpeg env w).2 /\
  first_seen_no_duplicates env (find_capture_devices env w).2.
Proof.
  assert (Hraw : forall k, (k <= 4)%nat ->
                   first_seen_no_duplicates env (Ok (strategy_result env k))).
  { intros k Hk. exists (strategy_result env k), k. unfold strategy_result.
    split; [reflexivity |]. split; [exact Hk |].
    split; [apply dict_fromkeys_NoDup |].
    split; [apply dict_fromkeys_first_occurrences | apply dict_fromkeys_In]. }
  assert (Hpick : forall ks : list nat,
             (forall k, In k ks -> (k <= 4)%nat) ->
             first_seen_no_duplicates env
               (Ok (first_nonempty (map (strategy_result env) ks)))).
  { intros ks Hks.
    destruct (first_nonempty_cases (map (strategy_result env) ks)) as [H | H].
    - rewrite H. apply (Hraw 0%nat). lia.
    - apply in_map_iff in H. destruct H as [k [Hk Hin]].
      rewrite <- Hk. apply Hraw. now apply Hks. }
  rewrite find_capture_devices_pnp_run, find_capture_devices_ffmpeg_run,
    find_capture_devices_run.
  split; [|split].
  - apply (Hpick [1; 2; 3]%nat). simpl. intros k H. lia.
  - apply Hraw. lia.
  - apply (Hpick [1; 2; 3; 4]%nat). simpl. intros k H. lia.
Qed.

End Enumerator.

(** ** Configuration and selection *)

Section Selection.
Import Py Sys Capture Design.

Lemma load_config_run (env : Env) (path : option string) (w : World) :
  load_config env path w = (w, Ok (loaded env (path_or_default env path) w)).
Proof.
  unfold load_config, try_except, read_file, loads, loaded, ret, raise. cbv [bind].
  destruct (files w !! path_or_default env path) as [f |]; [|reflexivity].
  destruct (readable f); [|reflexivity].
  destruct (json_loads env (text f)); reflexivity.
Qed.

Lemma loaded_fails (env : Env) (p : string) (w : World) :
  load_fails env p w -> loaded env p w = JDict ∅.
Proof.
  unfold load_fails, loaded. destruct (files w !! p) as [f |]; [|reflexivity].
  intros [-> | ->]; [reflexivity | now destruct (readable f)].
Qed.

Lemma ensure_default_capture_device_short (env : Env) (dry_run : bool) (w : World) :
  match loaded env (config_path env) w with
  | JDict d =>
      if source_is_not_capture d
      then ensure_default_capture_device env dry_run w = (w, Ok None)
      else if get_truthy d "device"
           then ensure_default_capture_device env dry_run w = (w, Ok (dict_get d "device"))
           else True
  | _ => ensure_default_capture_device env dry_run w = (w, Ok None)
  end.
Proof.
  remember (ensure_default_capture_device env dry_run w) as r eqn:Hr.
  unfold ensure_default_capture_device in Hr. unfold bind at 1 in Hr.
  rewrite load_config_run in Hr. unfold path_or_default in Hr.
  destruct (loaded env (config_path env) w) as [| | | | | |d]; try exact Hr.
  destruct (source_is_not_capture d); [exact Hr |].
  destruct (get_truthy d "device"); [exact Hr | exact I].
Qed.

(** C3.  Once a device is pinned (the configuration file loads as a
    mapping whose source is "capture" and whose device is a non-empty
    string), the call returns that string and hands the world back as it
    was: no command run, no call of the scorer, no write.  The same holds
    whatever the commands would have done, and a second call gives the
    same value and again the same world. *)
Theorem ensure_default_capture_device_pinned
    (env : Env) (dry_run : bool) (w : World) (f : File)
    (d : gmap string json) (dev : string) :
  files w !! config_path env = Some f ->
  readable f = true ->
  json_loads env (text f) = Some (JDict d) ->
  d !! "source" = Some (JStr "capture") ->
  d !! "device" = Some (JStr dev) ->
  dev <> EmptyString ->
  ensure_default_capture_device env dry_run w = (w, Ok (Some (JStr dev))) /\
  (forall run, ensure_default_capture_device (with_commands env run) dry_run w
               = (w, Ok (Some (JStr dev)))) /\
  ensure_default_capture_device env dry_run
    (ensure_default_capture_device env dry_run w).1 = (w, Ok (Some (JStr dev))).
Proof.
  intros Hf Hr Hj Hs Hd Hne.
  assert (H : forall run, ensure_default_capture_device (with_commands env run) dry_run w
                          = (w, Ok (Some (JStr dev)))).
  { intros run.
    pose proof (ensure_default_capture_device_short (with_commands env run) dry_run w) as H.
    unfold loaded in H. simpl in H. rewrite Hf, Hr, Hj in H.
    unfold source_is_not_capture, get_truthy, dict_get in H. rewrite Hs, Hd in H.
    simpl in H. destruct dev; [contradiction | exact H]. }
  assert (H0 : ensure_default_capture_device env dry_run w = (w, Ok (Some (JStr dev)))).
  { specialize (H (subprocess_run env)). now destruct env. }
  split; [exact H0 |]. split; [exact H |]. now rewrite H0.
Qed.

(** C4.  When what the configuration file loads as is not a mapping whose
    source is the string "capture", the call returns none and hands the
    world back as it was: the file is not written, nothing is run. *)
Theorem ensure_default_capture_device_inert
    (env : Env) (dry_run : bool) (w : World) (cfg : json) :
  (load_config env None w).2 = Ok cfg ->
  (forall d, cfg = JDict d -> d !! "source" <> Some (JStr "capture")) ->
  ensure_default_capture_device env dry_run w = (w, Ok None).
Proof.
  rewrite load_config_run. simpl. intros H Hsrc. injection H as H.
  pose proof (ensure_default_capture_device_short env dry_run w) as Hshort.
  rewrite H in Hshort.
  destruct cfg as [| | | | | |d]; try exact Hshort.
  specialize (Hsrc d eq_refl).
  assert (Hs : source_is_not_capture d = true).
  { unfold source_is_not_capture, dict_get.
    destruct (d !! "source") as [v |] eqn:E; [|reflexivity].
    destruct v as [| | | |t| |]; try reflexivity. simpl.
    destruct (String.eqb_spec t "capture") as [-> | _]; [contradiction | reflexivity]. }
  now rewrite Hs in Hshort.
Qed.

(** C10.  When the configuration file is missing, cannot be read or does
    not hold JSON, [load_config] returns the empty mapping, raises nothing
    and hands the world back as it was (no backup is made); for the default
    path, [ensure_default_capture_device] then returns none and leaves the
    world, the file included, as it was. *)
Theorem load_config_failure_is_empty_mapping
    (env : Env) (path : option string) (dry_run : bool) (w : World) :
  load_fails env (path_or_default env path) w ->
  load_config env path w = (w, Ok (JDict ∅)) /\
  (path_or_default env path = config_path env ->
   ensure_default_capture_device env dry_run w = (w, Ok None)).
Proof.
  intros H. rewrite load_config_run, (loaded_fails _ _ _ H).
  split; [reflexivity |]. intros Hp. rewrite Hp in H.
  pose proof (ensure_default_capture_device_short env dry_run w) as Hshort.
  now rewrite (loaded_fails _ _ _ H) in Hshort.
Qed.

(** C3 at a sample: a configuration that pins "Elgato HD60". *)
Lemma ensure_default_capture_device_pinned_witness :
  Samples.pinned_config !! "source" = Some (JStr "capture") /\
  Samples.pinned_config !! "device" = Some (JStr "Elgato HD60") /\
  let env := Samples.env_reading (Some (JDict Samples.pinned_config)) in
  let w := Samples.world_with_config "pinned" in
  ensure_default_capture_device env false w = (w, Ok (Some (JStr "Elgato HD60"))) /\
  (forall run, ensure_default_capture_device (with_commands env run) false w
               = (w, Ok (Some (JStr "Elgato HD60")))) /\
  ensure_default_capture_device env false
    (ensure_default_capture_device env false w).1 = (w, Ok (Some (JStr "Elgato HD60"))).
Proof.
  split; [vm_compute; reflexivity |]. split; [vm_compute; reflexivity |].
  apply (ensure_default_capture_device_pinned
           (Samples.env_reading (Some (JDict Samples.pinned_config))) false
           (Samples.world_with_config "pinned") (Samples.a_file "pinned")
           Samples.pinned_config "Elgato HD60").
  - vm_compute; reflexivity.
  - reflexivity.
  - reflexivity.
  - vm_compute; reflexivity.
  - vm_compute; reflexivity.
  - discriminate.
Defined.

(** C4 at a sample: a configuration whose source is "file". *)
Lemma ensure_default_capture_device_inert_witness :
  let env := Samples.env_reading (Some (JDict Samples.file_config)) in
  let w := Samples.world_with_config "other" in
  (load_config env None w).2 = Ok (JDict Samples.file_config) /\
  Samples.file_config !! "source" = Some (JStr "file") /\
  ensure_default_capture_device env false w = (w, Ok None).
Proof.
  split; [vm_compute; reflexivity |]. split; [vm_compute; reflexivity |].
  apply (ensure_default_capture_device_inert
           (Samples.env_reading (Some (JDict Samples.file_config))) false
           (Samples.world_with_config "other") (JDict Samples.file_config)).
  - vm_compute; reflexivity.
  - intros d H. injection H as <-. vm_compute. discriminate.
Defined.

(** C10 at a sample: a configuration file that does not hold JSON. *)
Lemma load_config_failure_is_empty_mapping_witness :
  let env := Samples.env_reading None in
  let w := Samples.world_with_config "{not json" in
  load_fails env (path_or_default env None) w /\
  load_config env None w = (w, Ok (JDict ∅)) /\
  (path_or_default env None = config_path env ->
   ensure_default_capture_device env false w = (w, Ok None)).
Proof.
  assert (H : load_fails (Samples.env_reading None)
                (path_or_default (Samples.env_reading None) None)
                (Samples.world_with_config "{not json")).
  { unfold load_fails. vm_compute. right. reflexivity. }
  split; [exact H |].
  exact (load_config_failure_is_empty_mapping
           (Samples.env_reading None) None false
           (Samples.world_with_config "{not json") H).
Defined.

End Selection.

(** ** [ensure_config] *)

Section EnsureConfig.
Import Py Sys Main.

Lemma take_drop_str (i : nat) (s : string) : take_str i s ++ drop_str i s = s.
Proof.
  revert s; induction i as [|i IH]; intros [|c s]; try reflexivity.
  simpl. now rewrite str_app_cons, IH.
Qed.

Lemma drop_str_length (i : nat) (s : string) :
  String.length (drop_str i s) = (String.length s - i)%nat.
Proof.
  revert s; induction i as [|i IH]; intros [|c s]; simpl; try reflexivity; try lia.
  apply IH.
Qed.

Lemma rfind_drop (c : ascii) (s : string) (i : nat) :
  rfind c s = Some i ->
  (i < String.length s)%nat /\ exists r, drop_str i s = String c r.
Proof.
  revert i; induction s as [|d s IH]; intros i; simpl; [discriminate |].
  destruct (rfind c s) as [j |].
  - intros H; injection H as <-. destruct (IH j eq_refl) as [Hlt [r Hr]].
    split; [lia | now exists r].
  - destruct (Ascii.eqb d c) eqn:E; [|discriminate].
    intros H; injection H as <-. apply ascii_eqb_true in E; subst d.
    split; [lia | now exists s].
Qed.

Lemma suffix_cases (p : Path) :
  suffix p = EmptyString \/
  exists i r, (i < String.length (name p))%nat /\
              suffix p = drop_str i (name p) /\ suffix p = String "." r.
Proof.
  unfold suffix. destruct (rfind "." (name p)) as [i |] eqn:E; [|now left].
  destruct ((0 <? i)%nat && (i <? String.length (name p) - 1)%nat); [|now left].
  right. destruct (rfind_drop _ _ _ E) as [Hlt [r Hr]]. now exists i, r.
Qed.

(** The backup path is the path with [.bad] appended. *)
Lemma with_suffix_bad (p : Path) :
  name p <> EmptyString ->
  with_suffix p (suffix p ++ ".bad") =
  Ok {| parent := parent p; name := name p ++ ".bad" |}.
Proof.
  intros Hname. unfold with_suffix.
  destruct (suffix_cases p) as [Hs | [i [r [Hlt [Hdrop Hs]]]]].
  - rewrite Hs. simpl. destruct (name p); [contradiction | reflexivity].
  - assert (Hlen : (String.length (name p) - String.length (suffix p))%nat = i).
    { rewrite Hdrop, drop_str_length. lia. }
    assert (Hd : drop_str i (name p) = String "." r) by congruence.
    rewrite Hlen, Hs, !str_app_cons. simpl.
    destruct (String.eqb_spec (r ++ ".bad") EmptyString) as [E | _].
    { apply (f_equal String.length) in E. rewrite str_app_length in E. simpl in E. lia. }
    destruct (is_empty (name p)) eqn:Ee.
    { destruct (name p); [contradiction | discriminate]. }
    do 2 f_equal.
    rewrite <- str_app_cons, <- Hd, <- str_app_assoc. now rewrite take_drop_str.
Qed.

Lemma str_app_neq (s t : string) : t <> EmptyString -> s ++ t <> s.
Proof.
  intros Ht H. apply (f_equal String.length) in H. rewrite str_app_length in H.
  destruct t; [contradiction | simpl in H; lia].
Qed.

(** C9.  When the file at [path] does not hold JSON, [ensure_config]
    first renames it to [path] with [.bad] appended, then writes the
    default configuration at [path], and returns the default
    configuration; afterwards the backup is the original file, the file at
    [path] holds the default text, and no other file has changed. *)
Theorem ensure_config_backs_up_corrupt_file
    (env : Env) (path : Path) (w : World) (f : File) :
  name path <> EmptyString ->
  files w !! path_str path = Some f ->
  json_loads env (text f) = None ->
  let backup := path_str path ++ ".bad" in
  let default_text := json_dumps env true DEFAULT_CONFIG in
  exists w',
    ensure_config env path w = (w', Ok DEFAULT_CONFIG) /\
    trace w' = (trace w ++ [EvRename (path_str path) backup;
                            EvWrite (path_str path) default_text])%list /\
    backup <> path_str path /\
    files w' !! backup = Some f /\
    files w' !! path_str path =
      Some {| text := default_text; readable := true; writable := true |} /\
    (forall q, q <> path_str path -> q <> backup -> files w' !! q = files w !! q).
Proof.
  intros Hname Hf Hj backup default_text.
  assert (Hb : path_str {| parent := parent path; name := name path ++ ".bad" |} = backup).
  { unfold backup, path_str. simpl. now rewrite str_app_assoc. }
  assert (Hne : backup <> path_str path) by (apply str_app_neq; discriminate).
  exists {| files := <[path_str path :=
                         {| text := default_text; readable := true; writable := true |}]>
                       (<[backup := f]> (delete (path_str path) (files w)));
            trace := (trace w ++ [EvRename (path_str path) backup])
                       ++ [EvWrite (path_str path) default_text] |}.
  split; [|split; [|split; [|split; [|split]]]].
  - assert (Hrecreate :
      recreate env path w =
      ({| files := <[path_str path :=
                       {| text := default_text; readable := true; writable := true |}]>
                     (<[backup := f]> (delete (path_str path) (files w)));
          trace := (trace w ++ [EvRename (path_str path) backup])
                     ++ [EvWrite (path_str path) default_text] |}, Ok DEFAULT_CONFIG)).
    { unfold recreate, lift, rename_file, write_file, ret. cbv [bind].
      rewrite (with_suffix_bad path Hname), Hb, Hf. simpl.
      rewrite lookup_insert_ne by exact Hne. rewrite lookup_delete_eq. reflexivity. }
    unfold ensure_config, file_exists, try_except, read_file, loads, ret, raise.
    cbv [bind]. rewrite bool_decide_eq_true_2 by (rewrite Hf; now eexists).
    simpl. rewrite Hf.
    destruct (readable f); [rewrite Hj |]; exact Hrecreate.
  - simpl. now rewrite <- app_assoc.
  - exact Hne.
  - simpl. rewrite lookup_insert_ne by congruence. apply lookup_insert_eq.
  - simpl. apply lookup_insert_eq.
  - intros q Hq Hqb. simpl.
    rewrite lookup_insert_ne by congruence. rewrite lookup_insert_ne by congruence.
    now rewrite lookup_delete_ne by congruence.
Qed.

(** C9 at a sample: [config.json] holding text that is not JSON. *)
Lemma ensure_config_backs_up_corrupt_file_witness :
  let env := Samples.env_reading None in
  let w := Samples.world_with_config "{not json" in
  files w !! path_str Samples.config_json = Some (Samples.a_file "{not json") /\
  exists w',
    ensure_config env Samples.config_json w = (w', Ok DEFAULT_CONFIG) /\
    trace w' = [EvRename "config.json" "config.json.bad"; EvWrite "config.json" "{}"] /\
    "config.json.bad" <> "config.json" /\
    files w' !! "config.json.bad" = Some (Samples.a_file "{not json") /\
    files w' !! "config.json" = Some (Samples.a_file "{}") /\
    (forall q, q <> "config.json" -> q <> "config.json.bad" ->
               files w' !! q = files w !! q).
Proof.
  split; [vm_compute; reflexivity |].
  apply (ensure_config_backs_up_corrupt_file
           (Samples.env_reading None) Samples.config_json
           (Samples.world_with_config "{not json") (Samples.a_file "{not json")).
  - discriminate.
  - vm_compute; reflexivity.
  - reflexivity.
Defined.

End EnsureConfig.

(** ** The capture thread *)

Section CaptureThread.
Import Py Window.
Context {Frame QImage : Type} (to_qimage : Frame -> QImage).

Local Abbreviation State := (Window.State (Frame := Frame) (QImage := QImage)).
Local Abbreviation Cv2 := (Window.Cv2 (Frame := Frame)).

Lemma exec_app (cv2 : Cv2) (s1 s2 : list Tid) (s : State) :
  exec to_qimage cv2 (s1 ++ s2) s = exec to_qimage cv2 s2 (exec to_qimage cv2 s1 s).
Proof. unfold exec. apply fold_left_app. Qed.

Lemma exec_run_S (cv2 : Cv2) (n : nat) (s : State) :
  exec to_qimage cv2 (repeat TRun (S n)) s =
  exec to_qimage cv2 (repeat TRun n) (step_run to_qimage cv2 s).
Proof. reflexivity. Qed.

(** *** Neither way of opening gives an open handle *)

Lemma polling_step (cv2 : Cv2) (device : string) (s : State) :
  cv2_present cv2 = true ->
  open_by_name cv2 ("dshow:video=" ++ device) = Opens false ->
  open_by_index cv2 0 = Opens false ->
  polling_invariant device s ->
  polling_invariant device (step_run to_qimage cv2 s).
Proof.
  intros Hcv Hname Hidx (Hdev & Hrun & Hem & Hrel & Hmark & Hpc).
  unfold polling_invariant, step_run, note_boundary, cap_read in *.
  destruct s as [dev running cap pc spc reads em rel cl mark bmark]; simpl in *.
  subst. destruct pc; simpl in *; try contradiction; subst; simpl;
    rewrite ?Hcv, ?Hname, ?Hidx; simpl; repeat split; reflexivity.
Qed.

Lemma polling_exec (cv2 : Cv2) (device : string) (n : nat) (s : State) :
  cv2_present cv2 = true ->
  open_by_name cv2 ("dshow:video=" ++ device) = Opens false ->
  open_by_index cv2 0 = Opens false ->
  polling_invariant device s ->
  polling_invariant device (exec to_qimage cv2 (repeat TRun n) s).
Proof.
  intros Hcv Hname Hidx. revert s; induction n as [|n IH]; intros s H; [exact H |].
  rewrite exec_run_S. apply IH. now apply polling_step.
Qed.

(** C7, what the code does.  When the open by name and the open by
    index 0 both return a handle that is not open, [run] enters its loop
    all the same: however many steps it takes, it has not finished, it has
    emitted no frame, and it has released nothing; it goes on polling the
    dead handle until [stop] is called. *)
Theorem run_polls_after_double_open_failure
    (cv2 : Cv2) (device : string) (n : nat) :
  cv2_present cv2 = true ->
  open_by_name cv2 ("dshow:video=" ++ device) = Opens false ->
  open_by_index cv2 0 = Opens false ->
  let s := exec to_qimage cv2 (repeat TRun n) (init device) in
  run_finished s = false /\ emitted s = [] /\ release_calls s = 0%nat /\
  _running s = true.
Proof.
  intros Hcv Hname Hidx s.
  assert (H : polling_invariant device s).
  { apply polling_exec; try assumption. repeat split. }
  destruct H as (_ & Hrun & Hem & Hrel & _ & Hpc).
  repeat split; try assumption.
  unfold run_finished. destruct (run_pc s); try reflexivity; contradiction.
Qed.

(** X28.  When the open by index raises instead, [run] ends quietly: no
    frame, no exception, the first handle released. *)
Lemma run_ends_when_index_open_raises (cv2 : Cv2) (device : string) (e : exn) :
  cv2_present cv2 = true ->
  open_by_name cv2 ("dshow:video=" ++ device) = Opens false ->
  open_by_index cv2 0 = OpenRaises e ->
  let s := exec to_qimage cv2 (repeat TRun 5) (init device) in
  run_pc s = RDone None /\ emitted s = [] /\ release_calls s = 1%nat.
Proof.
  intros Hcv Hname Hidx.
  assert (H : exec to_qimage cv2 (repeat TRun 5) (init device) =
              {| device_name := device; _running := true; _cap := Some false;
                 run_pc := RDone None; stop_pc := SSetFlag;
                 reads_done := 0; emitted := []; release_calls := 1; closes := 0;
                 stop_mark := None; boundary_mark := None |}).
  { unfold exec, init. simpl.
    unfold step_run at 5; simpl. rewrite Hcv.
    unfold step_run at 4; simpl. rewrite Hname.
    unfold step_run at 3; simpl.
    unfold step_run at 2; simpl. rewrite Hidx.
    unfold step_run; simpl. reflexivity. }
  intros s. subst s. rewrite H. simpl. split; [reflexivity |]. split; reflexivity.
Qed.

(** *** [stop] while the loop is streaming *)

Lemma streaming_invariant (s : State) : streaming s -> stop_invariant s.
Proof.
  intros (Hrun & Hcap & Hpc & Hstop & Hrel & Hcl & Hmark & Hb).
  unfold stop_invariant. rewrite Hcap, Hrel, Hcl, Hstop, Hrun, Hmark, Hb.
  destruct Hpc as [-> | [-> | [-> | [[f ->] | ->]]]]; simpl; repeat split.
Qed.

Ltac finish_invariant :=
  simpl in *; rewrite ?length_app in *; simpl in *;
  intuition (subst; simpl in *; try discriminate; try congruence; try lia).

Lemma stop_invariant_step_run (cv2 : Cv2) (s : State) :
  stop_invariant s -> stop_invariant (step_run to_qimage cv2 s).
Proof.
  destruct s as [dev running cap pc spc reads em rel cl mark bmark].
  unfold stop_invariant, step_run, note_boundary, cap_read, release_if_any; simpl.
  intros (Hpc & Hcap & Hrel & Hcl & Hrun & Hmark & Hb).
  destruct pc; simpl in Hpc; try discriminate; subst cap running.
  - (* the loop condition *)
    destruct mark as [n |], bmark as [m |], spc; finish_invariant.
  - (* the read *)
    destruct (Nat.eqb_spec rel 0) as [E | E].
    + destruct (device_read cv2 reads) as [e | [|] [fr |]];
        destruct mark as [n |], bmark as [m |], spc; simpl;
        destruct (Nat.eqb_spec rel 0); finish_invariant.
    + destruct mark as [n |], bmark as [m |], spc; simpl;
        destruct (Nat.eqb_spec rel 0); finish_invariant.
  - (* the sleep after a failed read *)
    destruct mark as [n |], bmark as [m |], spc; finish_invariant.
  - (* the emission *)
    destruct mark as [n |], bmark as [m |], spc; finish_invariant.
  - (* the sleep after an emission *)
    destruct mark as [n |], bmark as [m |], spc; finish_invariant.
  - (* the finally block *)
    destruct (Nat.eqb_spec rel 0) as [E | E];
      destruct mark as [n |], bmark as [m |], spc; finish_invariant.
  - (* the end *)
    destruct mark as [n |], bmark as [m |], spc; finish_invariant.
Qed.

Lemma stop_invariant_step_stop (s : State) :
  stop_invariant s -> stop_invariant (step_stop s).
Proof.
  destruct s as [dev running cap pc spc reads em rel cl mark bmark].
  unfold stop_invariant, step_stop, clear_running, release_if_any; simpl.
  intros (Hpc & Hcap & Hrel & Hcl & Hrun & Hmark & Hb).
  subst cap running.
  destruct spc; simpl.
  - destruct mark as [n |], bmark as [m |]; finish_invariant.
  - destruct (Nat.eqb_spec rel 0) as [E | E];
      destruct mark as [n |], bmark as [m |], pc; finish_invariant.
  - destruct mark as [n |], bmark as [m |]; finish_invariant.
  - destruct mark as [n |], bmark as [m |]; finish_invariant.
Qed.

Lemma stop_invariant_exec (cv2 : Cv2) (sched : list Tid) (s : State) :
  stop_invariant s -> stop_invariant (exec to_qimage cv2 sched s).
Proof.
  revert s; induction sched as [|t sched IH]; intros s H; [exact H |].
  unfold exec. simpl. apply IH. destruct t; simpl.
  - now apply stop_invariant_step_run.
  - now apply stop_invariant_step_stop.
Qed.

Lemma step_run_stop_pc (cv2 : Cv2) (s : State) :
  stop_pc (step_run to_qimage cv2 s) = stop_pc s.
Proof.
  destruct s as [dev running cap pc spc reads em rel cl mark bmark].
  unfold step_run, note_boundary, cap_read, release_if_any; simpl.
  destruct pc; simpl; try reflexivity.
  - now destruct (cv2_present cv2).
  - now destruct (open_by_name cv2 _).
  - now destruct cap as [[|] |].
  - now destruct (open_by_index cv2 0).
  - destruct mark, bmark; simpl; now destruct (running && _).
  - destruct cap as [[|] |]; simpl; try reflexivity.
    now destruct (device_read cv2 reads) as [e | [|] [fr |]].
  - now destruct cap.
Qed.

Lemma exec_run_stop_pc (cv2 : Cv2) (n : nat) (s : State) :
  stop_pc (exec to_qimage cv2 (repeat TRun n) s) = stop_pc s.
Proof.
  revert s; induction n as [|n IH]; intros s; [reflexivity |].
  now rewrite exec_run_S, IH, step_run_stop_pc.
Qed.

Lemma step_stop_thrice (s : State) :
  stop_pc (step_stop (step_stop (step_stop s))) = SDone.
Proof.
  destruct s as [dev running cap pc spc reads em rel cl mark bmark].
  destruct spc; unfold step_stop, release_if_any; simpl; try reflexivity;
    destruct cap; reflexivity.
Qed.

(** With the flag cleared, every step of [run] brings it closer to its
    end. *)
Lemma run_progress (cv2 : Cv2) (s : State) :
  stop_invariant s -> _running s = false ->
  (steps_left (run_pc (step_run to_qimage cv2 s)) <= steps_left (run_pc s) - 1)%nat.
Proof.
  destruct s as [dev running cap pc spc reads em rel cl mark bmark].
  unfold stop_invariant, step_run, note_boundary, cap_read, release_if_any; simpl.
  intros (Hpc & Hcap & _) ->. subst cap.
  destruct pc; simpl in *; try discriminate; try lia.
  - destruct mark, bmark; simpl; lia.
  - destruct (Nat.eqb rel 0); simpl; [|lia].
    destruct (device_read cv2 reads) as [e | [|] [fr |]]; simpl; lia.
Qed.

Lemma run_finishes (cv2 : Cv2) (n : nat) (s : State) :
  stop_invariant s -> _running s = false ->
  (steps_left (run_pc s) <= n)%nat ->
  run_finished (exec to_qimage cv2 (repeat TRun n) s) = true.
Proof.
  revert s; induction n as [|n IH]; intros s Hinv Hrun Hn.
  - unfold exec, run_finished; simpl.
    destruct (run_pc s); simpl in Hn; try lia; reflexivity.
  - rewrite exec_run_S. apply IH.
    + now apply stop_invariant_step_run.
    + pose proof (stop_invariant_step_run cv2 s Hinv) as (_ & _ & _ & _ & Hr' & _).
      destruct Hinv as (_ & _ & _ & _ & Hr & _).
      now rewrite Hr', step_run_stop_pc, <- Hr.
    + pose proof (run_progress cv2 s Hinv Hrun). lia.
Qed.

(** C8, as the code has it.  Let [stop] be called while the loop is
    streaming, and let the two threads take their steps in any order.
    Then [release()] is called at most twice, and only one call finds the
    handle open; once [run] and [stop] are both through, it has been
    called exactly twice, once by [stop] and once by the [finally] block
    of [run], and the handle is closed.  No frame is emitted after the
    loop condition has been evaluated with the flag cleared, and at most
    one after the flag was cleared.  Three steps of [stop] and five of
    [run] are enough to bring both to their end. *)
Theorem stop_releases_twice_and_silences
    (cv2 : Cv2) (s : State) (sched : list Tid) :
  streaming s ->
  let s' := exec to_qimage cv2 sched s in
  let s'' := exec to_qimage cv2 (sched ++ [TStop; TStop; TStop] ++ repeat TRun 5) s in
  ((release_calls s' <= 2)%nat /\ (closes s' <= 1)%nat) /\
  (run_finished s' = true -> stop_finished s' = true ->
   release_calls s' = 2%nat /\ closes s' = 1%nat /\ _cap s' = Some false) /\
  (forall n, boundary_mark s' = Some n -> length (emitted s') = n) /\
  (forall n, stop_mark s' = Some n -> (length (emitted s') <= n + 1)%nat) /\
  (run_finished s'' = true /\ stop_finished s'' = true /\
   release_calls s'' = 2%nat /\ closes s'' = 1%nat).
Proof.
  intros Hstream s' s''.
  assert (Hinv : stop_invariant s').
  { apply stop_invariant_exec. now apply streaming_invariant. }
  assert (Hdone : forall t : State,
             stop_invariant t -> run_finished t = true -> stop_finished t = true ->
             release_calls t = 2%nat /\ closes t = 1%nat /\ _cap t = Some false).
  { intros t (_ & Hcap & Hrel & Hcl & _) Hr Hs.
    unfold run_finished, stop_finished in *.
    destruct (run_pc t); try discriminate. destruct (stop_pc t); try discriminate.
    simpl in Hrel. rewrite Hcap, Hcl, Hrel. repeat split. }
  split; [|split; [|split; [|split]]].
  - destruct Hinv as (_ & _ & Hrel & Hcl & _).
    rewrite Hcl, Hrel. destruct (stop_pc s'), (run_pc s'); simpl; lia.
  - now apply Hdone.
  - intros n Hn. destruct Hinv as (_ & _ & _ & _ & _ & _ & Hb).
    rewrite Hn in Hb. tauto.
  - intros n Hn. destruct Hinv as (_ & _ & _ & _ & _ & Hm & _).
    rewrite Hn in Hm. tauto.
  - subst s''. rewrite !exec_app. fold s'.
    set (t := exec to_qimage cv2 [TStop; TStop; TStop] s').
    assert (Ht : stop_invariant t) by now apply stop_invariant_exec.
    assert (Hst : stop_pc t = SDone) by apply step_stop_thrice.
    assert (Hrun : _running t = false).
    { destruct Ht as (_ & _ & _ & _ & Hr & _). now rewrite Hr, Hst. }
    assert (Hleft : (steps_left (run_pc t) <= 5)%nat).
    { destruct Ht as (Hpc & _). destruct (run_pc t); simpl in *; try discriminate; lia. }
    assert (Hfin : run_finished (exec to_qimage cv2 (repeat TRun 5) t) = true)
      by now apply run_finishes.
    assert (Hsfin : stop_finished (exec to_qimage cv2 (repeat TRun 5) t) = true).
    { unfold stop_finished. now rewrite exec_run_stop_pc, Hst. }
    split; [exact Hfin |]. split; [exact Hsfin |].
    destruct (Hdone _ (stop_invariant_exec cv2 (repeat TRun 5) t Ht) Hfin Hsfin)
      as (H1 & H2 & _).
    now split.
Qed.

End CaptureThread.

Section CaptureThreadSamples.
Import Py Window.

Lemma streaming_sample_is_streaming : streaming streaming_sample.
Proof.
  unfold streaming. vm_compute.
  repeat split; try reflexivity. now left.
Qed.

(** C7 at a sample: no capture device at all, a thousand steps of [run]. *)
Lemma run_polls_after_double_open_failure_witness :
  let s := exec (fun n : nat => n) cv2_no_device (repeat TRun 1000)
             (init "USB Video Device") in
  run_finished s = false /\ emitted s = [] /\ release_calls s = 0%nat /\
  _running s = true.
Proof.
  apply (run_polls_after_double_open_failure (fun n : nat => n) cv2_no_device
           "USB Video Device" 1000); reflexivity.
Defined.

(** C8 at a sample: [stop] called after a first frame, the steps of the
    two threads interleaved. *)
Lemma stop_releases_twice_and_silences_witness :
  let sched := [TRun; TRun; TStop; TRun; TStop; TRun; TRun; TStop; TRun; TRun] in
  let s' := exec (fun n : nat => n) cv2_working sched streaming_sample in
  let s'' := exec (fun n : nat => n) cv2_working
               (sched ++ [TStop; TStop; TStop] ++ repeat TRun 5) streaming_sample in
  ((release_calls s' <= 2)%nat /\ (closes s' <= 1)%nat) /\
  (run_finished s' = true -> stop_finished s' = true ->
   release_calls s' = 2%nat /\ closes s' = 1%nat /\ _cap s' = Some false) /\
  (forall n, boundary_mark s' = Some n -> length (emitted s') = n) /\
  (forall n, stop_mark s' = Some n -> (length (emitted s') <= n + 1)%nat) /\
  (run_finished s'' = true /\ stop_finished s'' = true /\
   release_calls s'' = 2%nat /\ closes s'' = 1%nat).
Proof.
  apply (stop_releases_twice_and_silences (fun n : nat => n) cv2_working
           streaming_sample
           [TRun; TRun; TStop; TRun; TStop; TRun; TRun; TStop; TRun; TRun]).
  exact streaming_sample_is_streaming.
Defined.

(** C8, as the design document has it, fails: with [stop] called at the
    loop condition and run to its end before [run] goes on, both are
    through after five steps and [release()] has been called twice, the
    first time by [stop] and the second time by [run]. *)
Lemma stop_mid_stream_releases_twice :
  let sched := [TStop; TStop; TStop; TRun; TRun] in
  let s' := exec (fun n : nat => n) cv2_working sched streaming_sample in
  streaming streaming_sample /\
  run_finished s' = true /\ stop_finished s' = true /\
  release_calls s' = 2%nat /\
  ~ released_exactly_once (fun n : nat => n) cv2_working sched streaming_sample.
Proof.
  split; [exact streaming_sample_is_streaming |].
  split; [reflexivity |]. split; [reflexivity |]. split; [reflexivity |].
  intros H. specialize (H eq_refl eq_refl). vm_compute in H. discriminate.
Qed.

End CaptureThreadSamples.

(** * Further properties of the sources *)

(** ** The scorer, continued *)

Section ScorerMore.
Import Py Capture Design.

Lemma lower_char_idempotent (c : ascii) : lower_char (lower_char c) = lower_char c.
Proof. destruct c as [[] [] [] [] [] [] [] []]; reflexivity. Qed.

Lemma lower_idempotent (s : string) : lower (lower s) = lower s.
Proof.
  induction s as [|c s IH]; simpl; [reflexivity |].
  now rewrite lower_char_idempotent, IH.
Qed.

(** X2.  Scoring does not look at the case of letters: a name and its
    lower-cased form have the same score. *)
Theorem score_device_name_case_insensitive (name : string) :
  score_device_name (lower name) = score_device_name name.
Proof. unfold score_device_name. now rewrite lower_idempotent. Qed.

Lemma add_weight_fold_bounds (n : string) (table : list (string * Z)) :
  Forall (fun kw : string * Z => 0 <= kw.2) table ->
  0 <= fold_left (add_weight n) table 0 <= fold_left Z.add (map snd table) 0.
Proof.
  induction table as [|kw table IH]; intros H; simpl; [lia |].
  inversion H as [|? ? Hkw Htable]; subst. specialize (IH Htable).
  rewrite add_weight_fold_shift.
  assert (Hsum : forall (l : list Z) a, fold_left Z.add l a = a + fold_left Z.add l 0).
  { induction l as [|x l IHl]; intros a; simpl; [lia |].
    rewrite IHl, (IHl (0 + x)). lia. }
  rewrite (Hsum _ (0 + kw.2)).
  assert (Ha : add_weight n 0 kw = if str_in kw.1 n then kw.2 else 0).
  { unfold add_weight. destruct (str_in kw.1 n); lia. }
  rewrite Ha. destruct (str_in kw.1 n); lia.
Qed.

(** X1.  A score lies between 0 and 318, the sum of all weights plus the
    length bonus. *)
Theorem score_device_name_bounds (name : string) :
  0 <= score_device_name name <= 318.
Proof.
  rewrite score_device_name_unfold.
  pose proof (add_weight_fold_bounds (lower name) weights weights_nonneg) as H.
  change (fold_left Z.add (map snd weights) 0) with 316 in H.
  unfold length_bonus. destruct (20 <? len (lower name)); lia.
Qed.

Lemma add_weight_fold_member (n : string) (table : list (string * Z)) (kw : string * Z) :
  Forall (fun kw : string * Z => 0 <= kw.2) table ->
  In kw table -> str_in kw.1 n = true ->
  kw.2 <= fold_left (add_weight n) table 0.
Proof.
  induction table as [|kw' table IH]; intros H Hin Hk; [destruct Hin |].
  inversion H as [|? ? Hkw Htable]; subst. simpl.
  rewrite add_weight_fold_shift.
  pose proof (add_weight_fold_bounds n table Htable) as Hb.
  assert (Ha : add_weight n 0 kw' = if str_in kw'.1 n then kw'.2 else 0).
  { unfold add_weight. destruct (str_in kw'.1 n); lia. }
  rewrite Ha. destruct Hin as [-> | Hin].
  - rewrite Hk. lia.
  - specialize (IH Htable Hin Hk). destruct (str_in kw'.1 n); lia.
Qed.

(** X3.  Every keyword of the table that occurs in the lower-cased name
    is counted: the score is at least the weight of each of them. *)
Theorem score_device_name_at_least_weight (name k : string) (w : Z) :
  In (k, w) weights ->
  occurs_in k (lower name) ->
  w <= score_device_name name.
Proof.
  intros Hin Hocc. rewrite score_device_name_unfold.
  pose proof (add_weight_fold_member (lower name) weights (k, w) weights_nonneg Hin
                (proj2 (str_in_spec k (lower name)) Hocc)) as H.
  change ((k, w).2) with w in H.
  unfold length_bonus. destruct (20 <? len (lower name)); lia.
Qed.

(** X3 at a sample: "Elgato HD60" mentions elgato. *)
Lemma score_device_name_at_least_weight_witness :
  In ("elgato", 50) weights /\ 50 <= score_device_name "Elgato HD60".
Proof.
  assert (Hin : In ("elgato", 50) weights) by (now left).
  split; [exact Hin |].
  apply (score_device_name_at_least_weight "Elgato HD60" "elgato" 50 Hin).
  exists EmptyString, " hd60". reflexivity.
Defined.

(** The choice is the greatest scored pair of the list. *)
Lemma choose_best_device_greatest_pair (devices : list string) (b : string) :
  choose_best_device devices = Some b <->
  In b devices /\
  forall d, In d devices ->
    tuple_ltb (score_device_name b, b) (score_device_name d, d) = false.
Proof.
  set (pair := fun d : string => (score_device_name d, d)).
  destruct devices as [|d0 devices].
  - split; [discriminate | intros [[] _]].
  - destruct (sorted_reverse_head (pair d0) (map pair devices))
      as [[ms mn] [rest [Hs [Hin Hmax]]]].
    change (pair d0 :: map pair devices) with (map pair (d0 :: devices)) in Hin, Hmax.
    apply in_map_iff in Hin. destruct Hin as [m [Hm Hin]].
    unfold pair in Hm. injection Hm as <- <-.
    assert (Hc : choose_best_device (d0 :: devices) = Some m).
    { unfold choose_best_device. fold pair.
      change (map pair (d0 :: devices)) with (pair d0 :: map pair devices).
      now rewrite Hs. }
    assert (Hm : forall d, In d (d0 :: devices) -> tuple_ltb (pair m) (pair d) = false).
    { intros d Hd. apply Hmax. apply in_map_iff. now exists d. }
    rewrite Hc. split.
    + intros H. injection H as <-. split; assumption.
    + intros [Hb Hbmax]. f_equal.
      assert (E : pair m = pair b).
      { apply tuple_ltb_total; [now apply Hm | now apply Hbmax]. }
      unfold pair in E. now injection E.
Qed.

(** X4.  The choice does not depend on the order of the candidates: two
    lists with the same entries, in any order, give the same device. *)
Theorem choose_best_device_order_independent (l l' : list string) :
  Permutation l l' -> choose_best_device l = choose_best_device l'.
Proof.
  intros Hp.
  destruct (choose_best_device l) as [b |] eqn:E.
  - symmetry. apply choose_best_device_greatest_pair.
    apply choose_best_device_greatest_pair in E. destruct E as [Hin Hmax].
    split; [now apply (Permutation_in _ Hp) |].
    intros d Hd. apply Hmax. now apply (Permutation_in _ (Permutation_sym Hp)).
  - destruct l as [|x l].
    + apply Permutation_nil in Hp. now subst.
    + exfalso. destruct (sorted_reverse_head
                 (score_device_name x, x)
                 (map (fun d => (score_device_name d, d)) l)) as [[ms mn] [rest [Hs _]]].
      unfold choose_best_device in E.
      change (map (fun d => (score_device_name d, d)) (x :: l))
        with ((score_device_name x, x) :: map (fun d => (score_device_name d, d)) l) in E.
      rewrite Hs in E. discriminate.
Qed.

(** X4 at a sample: the two orders of the tie of C1. *)
Lemma choose_best_device_order_independent_witness :
  choose_best_device ["Elgato HD60"; "USB Video Device"] =
  choose_best_device ["USB Video Device"; "Elgato HD60"].
Proof.
  apply choose_best_device_order_independent. apply perm_swap.
Defined.

End ScorerMore.

(** ** The enumerator, continued *)

Section EnumeratorMore.
Import Py Sys Capture Design.

Lemma lstrip_by_fixed (p : ascii -> bool) (c : ascii) (r : string) :
  p c = false -> lstrip_by p (String c r) = String c r.
Proof. intros E. simpl. now rewrite E. Qed.

Lemma rstrip_by_idempotent (p : ascii -> bool) (s : string) :
  rstrip_by p (rstrip_by p s) = rstrip_by p s.
Proof.
  induction s as [|c s IH]; simpl; [reflexivity |].
  destruct (is_empty (rstrip_by p s) && p c) eqn:E; [reflexivity |].
  simpl. now rewrite IH, E.
Qed.

Lemma strip_idempotent (s : string) : strip (strip s) = strip s.
Proof.
  destruct (strip_head s) as [H | [c [r [H E]]]].
  - now rewrite H.
  - unfold strip at 1. unfold strip_by. rewrite H, (lstrip_by_fixed _ _ _ E), <- H.
    unfold strip, strip_by. apply rstrip_by_idempotent.
Qed.

Lemma stripped_lines_clean (out n : string) :
  In n (stripped_lines out) -> n <> EmptyString /\ strip n = n.
Proof.
  unfold stripped_lines. intros H. apply in_map_iff in H.
  destruct H as [line [<- Hin]]. apply filter_In in Hin. destruct Hin as [_ Hne].
  split; [|apply strip_idempotent].
  intros E. now rewrite E in Hne.
Qed.

Lemma fold_keep (f : string -> bool) (candidates names : list string) :
  fold_left (fun (c : list string) name => if f name then (c ++ [name])%list else c)
    names candidates =
  (candidates ++ List.filter f names)%list.
Proof.
  revert candidates; induction names as [|x names IH]; intros candidates;
    cbn [fold_left List.filter].
  - now rewrite app_nil_r.
  - rewrite IH. destruct (f x); [|reflexivity]. now rewrite <- app_assoc.
Qed.

Lemma keep_keyword_names_filter (candidates names : list string) :
  keep_keyword_names candidates names =
  (candidates ++
     List.filter (fun name => existsb (fun k => str_in k (lower name)) keywords) names)%list.
Proof.
  exact (fold_keep (fun name => existsb (fun k => str_in k (lower name)) keywords)
           candidates names).
Qed.

(** X6.  The client-side filter of the last registry query keeps exactly
    the names in which one of the keywords occurs once the name is
    lower-cased, and keeps them in their order. *)
Theorem keep_keyword_names_spec (names : list string) :
  (forall n, In n (keep_keyword_names [] names) <->
             In n names /\ exists k, In k keywords /\ occurs_in k (lower n)) /\
  keep_keyword_names [] names =
    List.filter (fun name => existsb (fun k => str_in k (lower name)) keywords) names.
Proof.
  rewrite keep_keyword_names_filter, app_nil_l. split; [|reflexivity].
  intros n. rewrite filter_In, existsb_exists.
  split; intros [Hin [k [Hk Hocc]]]; (split; [exact Hin |]); exists k;
    (split; [exact Hk |]); now apply str_in_spec.
Qed.

(** X5.  Every name that the registry half of the enumerator returns is
    non-empty and carries no leading or trailing white space. *)
Theorem find_capture_devices_pnp_names_clean
    (env : Env) (w : World) (devices : list string) (n : string) :
  (find_capture_devices_pnp env w).2 = Ok devices ->
  In n devices ->
  n <> EmptyString /\ strip n = n.
Proof.
  rewrite find_capture_devices_pnp_run. simpl. intros H Hin. injection H as <-.
  assert (Hraw : forall k, (1 <= k <= 3)%nat -> In n (strategy_result env k) ->
                           n <> EmptyString /\ strip n = n).
  { intros k Hk Hn. unfold strategy_result in Hn.
    apply (proj1 (dict_fromkeys_In _ _)) in Hn.
    destruct k as [|[|[|[|k]]]]; try lia; simpl in Hn.
    - now apply (stripped_lines_clean _ _ Hn).
    - now apply (stripped_lines_clean _ _ Hn).
    - rewrite keep_keyword_names_filter, app_nil_l in Hn.
      apply filter_In in Hn. now apply (stripped_lines_clean _ _ (proj1 Hn)). }
  destruct (strategy_result env 1) as [|x1 l1] eqn:E1.
  - destruct (strategy_result env 2) as [|x2 l2] eqn:E2.
    + destruct (strategy_result env 3) as [|x3 l3] eqn:E3; [destruct Hin |].
      apply (Hraw 3%nat); [lia | now rewrite E3].
    + apply (Hraw 2%nat); [lia | now rewrite E2].
  - apply (Hraw 1%nat); [lia | now rewrite E1].
Qed.

(** X5 at a sample: every command prints [HDMI Capture]. *)
Lemma find_capture_devices_pnp_names_clean_witness :
  (find_capture_devices_pnp env_exit_1 empty_world).2 = Ok ["HDMI Capture"] /\
  "HDMI Capture" <> EmptyString /\ strip "HDMI Capture" = "HDMI Capture".
Proof.
  assert (H : (find_capture_devices_pnp env_exit_1 empty_world).2 = Ok ["HDMI Capture"]).
  { rewrite find_capture_devices_pnp_run. vm_compute. reflexivity. }
  split; [exact H |].
  apply (find_capture_devices_pnp_names_clean env_exit_1 empty_world
           ["HDMI Capture"] "HDMI Capture" H).
  now left.
Defined.

Lemma startswith_char_cons (a c : ascii) (s : string) :
  startswith (String a EmptyString) (String c s) = Ascii.eqb a c.
Proof. simpl. now destruct (Ascii.eqb a c). Qed.

(** A single character occurs in a string, as the code tests it. *)
Lemma str_in_char_cons (c d : ascii) (s : string) :
  str_in (String c EmptyString) (String d s) =
  Ascii.eqb c d || str_in (String c EmptyString) s.
Proof. simpl. now destruct (Ascii.eqb c d). Qed.

Lemma str_in_char_app (c : ascii) (a b : string) :
  str_in (String c EmptyString) (a ++ b) =
  str_in (String c EmptyString) a || str_in (String c EmptyString) b.
Proof.
  induction a as [|d a IH]; [reflexivity |].
  rewrite str_app_cons, !str_in_char_cons, IH. now rewrite orb_assoc.
Qed.

Lemma endswith_app (p a : string) : endswith p (a ++ p) = true.
Proof.
  induction a as [|d a IH].
  - rewrite str_app_nil_l. destruct p; simpl; [reflexivity |].
    now rewrite Ascii.eqb_refl, String.eqb_refl.
  - rewrite str_app_cons. simpl. rewrite IH. apply orb_true_r.
Qed.

Lemma is_quote (c : ascii) :
  existsb (Ascii.eqb c) (list_ascii_of_string dquote_str) = Ascii.eqb c dquote.
Proof. simpl. apply orb_false_r. Qed.

Lemma rstrip_by_app_char (p : ascii -> bool) (q : ascii) (n : string) :
  p q = true ->
  (forall c, str_in (String c EmptyString) n = true -> p c = false) ->
  rstrip_by p (n ++ String q EmptyString) = n.
Proof.
  intros Hq. induction n as [|c n IH]; intros H.
  - rewrite str_app_nil_l. simpl. now rewrite Hq.
  - rewrite str_app_cons. simpl. rewrite IH.
    + rewrite (H c); [now rewrite andb_false_r |].
      rewrite str_in_char_cons, Ascii.eqb_refl. reflexivity.
    + intros d Hd. apply H. rewrite str_in_char_cons, Hd. apply orb_true_r.
Qed.

Lemma lstrip_by_first (p : ascii -> bool) (s : string) :
  match s with
  | EmptyString => True
  | String c _ => p c = false
  end ->
  lstrip_by p s = s.
Proof. destruct s as [|c s]; simpl; [reflexivity | now intros ->]. Qed.

Lemma not_quote (n : string) (c : ascii) :
  str_in dquote_str n = false ->
  str_in (String c EmptyString) n = true ->
  existsb (Ascii.eqb c) (list_ascii_of_string dquote_str) = false.
Proof.
  intros Hn Hc. rewrite is_quote.
  destruct (Ascii.eqb c dquote) eqn:E; [|reflexivity].
  apply ascii_eqb_true in E. subst c. unfold dquote_str in Hn. congruence.
Qed.

Lemma strip_chars_quoted (n : string) :
  str_in dquote_str n = false ->
  strip_chars dquote_str (dquote_str ++ n ++ dquote_str) = n.
Proof.
  intros H. unfold strip_chars, strip_by.
  remember (fun c => existsb (Ascii.eqb c) (list_ascii_of_string dquote_str)) as isq
    eqn:Hisq.
  assert (Hq : isq dquote = true) by (subst isq; reflexivity).
  assert (Hn : forall c, str_in (String c EmptyString) n = true -> isq c = false).
  { intros c Hc. subst isq. now apply (not_quote n). }
  change (dquote_str ++ n ++ dquote_str) with (String dquote (n ++ dquote_str)).
  simpl lstrip_by. rewrite Hq.
  destruct n as [|c n].
  - rewrite str_app_nil_l. simpl. now rewrite Hq.
  - rewrite (lstrip_by_first isq (String c n ++ dquote_str)).
    + now apply rstrip_by_app_char.
    + rewrite str_app_cons. apply Hn.
      rewrite str_in_char_cons, Ascii.eqb_refl. reflexivity.
Qed.

(** X7.  A line of the ffmpeg output without a double quote adds no
    device. *)
Theorem ffmpeg_line_without_quote (devices : list string) (line : string) :
  str_in dquote_str (strip line) = false ->
  ffmpeg_line devices line = devices.
Proof.
  intros H. unfold ffmpeg_line. rewrite H.
  destruct (is_empty (strip line)); [reflexivity |].
  assert (Hs : startswith dquote_str (strip line) = false).
  { destruct (strip line) as [|c s]; [reflexivity |].
    unfold dquote_str in *. rewrite str_in_char_cons in H.
    apply orb_false_iff in H. rewrite startswith_char_cons. exact (proj1 H). }
  now rewrite Hs.
Qed.

(** X7 at a sample: a banner line of ffmpeg. *)
Lemma ffmpeg_line_without_quote_witness :
  ffmpeg_line ["USB Camera"] "  DirectShow video devices  " = ["USB Camera"].
Proof. apply ffmpeg_line_without_quote. reflexivity. Defined.

(** X8.  A line that, white space aside, is one name between double
    quotes adds that name without the quotes. *)
Theorem ffmpeg_line_quoted_name (devices : list string) (line n : string) :
  strip line = dquote_str ++ n ++ dquote_str ->
  str_in dquote_str n = false ->
  ffmpeg_line devices line = (devices ++ [n])%list.
Proof.
  intros Hline Hn. unfold ffmpeg_line. rewrite Hline.
  assert (He : endswith dquote_str (dquote_str ++ n ++ dquote_str) = true).
  { rewrite <- str_app_assoc. apply endswith_app. }
  rewrite He, (strip_chars_quoted n Hn).
  change (dquote_str ++ n ++ dquote_str) with (String dquote (n ++ dquote_str)).
  unfold dquote_str at 1 2. rewrite startswith_char_cons, Ascii.eqb_refl.
  reflexivity.
Qed.

(** X8 at a sample. *)
Lemma ffmpeg_line_quoted_name_witness :
  ffmpeg_line [] ("  " ++ dquote_str ++ "USB Camera" ++ dquote_str) = ["USB Camera"].
Proof.
  apply (ffmpeg_line_quoted_name [] ("  " ++ dquote_str ++ "USB Camera" ++ dquote_str)
           "USB Camera"); reflexivity.
Defined.

Lemma split_from_app (sep : ascii) (a cur rest : string) :
  str_in (String sep EmptyString) a = false ->
  split_from sep cur (a ++ String sep rest) = (cur ++ a) :: split_from sep EmptyString rest.
Proof.
  revert cur; induction a as [|c a IH]; intros cur H.
  - rewrite str_app_nil_l, str_app_nil_r. simpl. now rewrite Ascii.eqb_refl.
  - rewrite str_in_char_cons in H. apply orb_false_iff in H. destruct H as [Hc Ha].
    rewrite str_app_cons. simpl. rewrite Ascii.eqb_sym, Hc.
    rewrite (IH _ Ha), str_app_assoc. reflexivity.
Qed.

Lemma split_from_nonempty (sep : ascii) (s cur : string) :
  exists part parts, split_from sep cur s = part :: parts.
Proof.
  revert cur; induction s as [|c s IH]; intros cur; simpl; [now eexists _, _ |].
  destruct (Ascii.eqb c sep); [now eexists _, _ | apply IH].
Qed.

(** X9.  A line in which a name between double quotes follows other
    text adds that name, stripped of white space, unless nothing is left
    of it; what comes after the closing quote does not matter. *)
Theorem ffmpeg_line_embedded_name (devices : list string) (line p n q : string) :
  strip line = p ++ dquote_str ++ n ++ dquote_str ++ q ->
  p <> EmptyString ->
  str_in dquote_str p = false ->
  str_in dquote_str n = false ->
  ffmpeg_line devices line =
  if is_empty (strip n) then devices else (devices ++ [strip n])%list.
Proof.
  intros Hline Hp Hpq Hnq. unfold ffmpeg_line. rewrite Hline.
  destruct p as [|c p]; [contradiction |].
  assert (Hc : Ascii.eqb dquote c = false).
  { unfold dquote_str in Hpq. rewrite str_in_char_cons in Hpq.
    now apply orb_false_iff in Hpq. }
  assert (Hin : str_in dquote_str (String c p ++ dquote_str ++ n ++ dquote_str ++ q) = true).
  { unfold dquote_str at 1. rewrite !str_in_char_app.
    assert (Hd : str_in (String dquote EmptyString) dquote_str = true).
    { unfold dquote_str. rewrite str_in_char_cons, Ascii.eqb_refl. reflexivity. }
    rewrite Hd. now rewrite orb_true_r. }
  assert (Hsplit : exists parts,
             split dquote (String c p ++ dquote_str ++ n ++ dquote_str ++ q)
             = String c p :: n :: parts /\ parts <> []).
  { unfold split.
    change (dquote_str ++ n ++ dquote_str ++ q) with (String dquote (n ++ String dquote q)).
    rewrite (split_from_app dquote (String c p) EmptyString _ Hpq).
    rewrite (split_from_app dquote n EmptyString _ Hnq).
    destruct (split_from_nonempty dquote q EmptyString) as [part [parts Hs]].
    rewrite Hs, !str_app_nil_l. exists (part :: parts). split; [reflexivity | discriminate]. }
  destruct Hsplit as [parts [Hsplit Hparts]].
  rewrite Hin, Hsplit.
  assert (Hs : startswith dquote_str
                 (String c p ++ dquote_str ++ n ++ dquote_str ++ q) = false).
  { rewrite str_app_cons. unfold dquote_str at 1.
    now rewrite startswith_char_cons. }
  rewrite Hs, str_app_cons.
  destruct parts as [|part parts]; [contradiction |].
  cbn [is_empty andb length Nat.leb nth].
  now destruct (is_empty (strip n)).
Qed.

(** X9 at a sample: the usual shape of an ffmpeg device line. *)
Lemma ffmpeg_line_embedded_name_witness :
  ffmpeg_line []
    ("[dshow @ 0x1]  " ++ dquote_str ++ "USB Camera" ++ dquote_str ++ " (video)")
  = ["USB Camera"].
Proof.
  apply (ffmpeg_line_embedded_name []
           ("[dshow @ 0x1]  " ++ dquote_str ++ "USB Camera" ++ dquote_str ++ " (video)")
           "[dshow @ 0x1]  " "USB Camera" " (video)");
    [reflexivity | discriminate | reflexivity | reflexivity].
Defined.

End EnumeratorMore.

(** ** The selection, continued *)

Section SelectionMore.
Import Py Sys Capture Design Discovery.

(** What a run does once it has found that no device is pinned. *)
Lemma ensure_default_capture_device_unpinned
    (env : Env) (dry_run : bool) (w : World) (f : File) (d : gmap string json) :
  unpinned env w f d ->
  ensure_default_capture_device env dry_run w =
  match choose_best_device (enumerated env) with
  | Some b =>
      if negb (is_empty b) then
        if negb dry_run then
          match write_file (config_path env) (json_dumps env false (pinned_cfg d b))
                  (log w (discovery_events env)) with
          | (w', Ok _) => (w', Ok (Some (JStr b)))
          | (w', Raise e) => (w', Raise e)
          end
        else (log w (discovery_events env), Ok (Some (JStr b)))
      else (log w (discovery_events env), Ok None)
  | None => (log w (discovery_events env), Ok None)
  end.
Proof.
  intros (Hf & Hr & Hj & Hs & Hd).
  unfold ensure_default_capture_device. unfold bind at 1.
  rewrite load_config_run. unfold loaded, path_or_default. rewrite Hf, Hr, Hj, Hs, Hd.
  unfold bind at 1. rewrite find_capture_devices_run. fold (enumerated env).
  unfold bind at 1. unfold emit. rewrite log_log. fold (discovery_events env).
  destruct (choose_best_device (enumerated env)) as [b |]; [|reflexivity].
  destruct (negb (is_empty b)); [|reflexivity].
  unfold bind, ret, save_config, path_or_default, pinned_cfg.
  destruct (negb dry_run); [|reflexivity].
  now destruct (write_file _ _ _) as [w' [[] | e]].
Qed.

(** X10.  A run that finds a device where none is pinned returns it and,
    unless it is a dry run, writes the configuration with the device added
    and every other key kept; it has run the commands of the enumeration
    and called the scorer once before the write, and touches no other
    file. *)
Theorem ensure_default_capture_device_persists
    (env : Env) (w : World) (f : File) (d : gmap string json) (b : string) :
  unpinned env w f d ->
  writable f = true ->
  choose_best_device (enumerated env) = Some b ->
  b <> EmptyString ->
  ensure_default_capture_device env false w =
  ({| files := <[config_path env := pinned_file env f d b]> (files w);
      trace := (trace w ++ discovery_events env
                  ++ [EvWrite (config_path env) (json_dumps env false (pinned_cfg d b))])%list |},
   Ok (Some (JStr b))) /\
  (forall k, k <> "device" -> <["device" := JStr b]> d !! k = d !! k).
Proof.
  intros Hu Hw Hc Hb.
  rewrite (ensure_default_capture_device_unpinned env false w f d Hu), Hc.
  destruct b as [|c b]; [contradiction |]. simpl negb. cbv iota.
  destruct Hu as (Hf & _). unfold write_file. simpl. rewrite Hf, Hw.
  split.
  - unfold pinned_file. now rewrite <- app_assoc.
  - intros k Hk. now apply lookup_insert_ne.
Qed.

(** X11.  A dry run that finds a device returns it and changes no
    file. *)
Theorem ensure_default_capture_device_dry_run
    (env : Env) (w : World) (f : File) (d : gmap string json) (b : string) :
  unpinned env w f d ->
  choose_best_device (enumerated env) = Some b ->
  b <> EmptyString ->
  ensure_default_capture_device env true w =
  (log w (discovery_events env), Ok (Some (JStr b))) /\
  files (ensure_default_capture_device env true w).1 = files w.
Proof.
  intros Hu Hc Hb.
  rewrite (ensure_default_capture_device_unpinned env true w f d Hu), Hc.
  destruct b as [|c b]; [contradiction |]. split; reflexivity.
Qed.

(** X12.  When the enumeration gives nothing, or its best name is the
    empty string, the run returns none and changes no file. *)
Theorem ensure_default_capture_device_nothing_found
    (env : Env) (dry_run : bool) (w : World) (f : File) (d : gmap string json) :
  unpinned env w f d ->
  enumerated env = [] \/ choose_best_device (enumerated env) = Some EmptyString ->
  ensure_default_capture_device env dry_run w =
  (log w (discovery_events env), Ok None) /\
  files (ensure_default_capture_device env dry_run w).1 = files w.
Proof.
  intros Hu Hc.
  rewrite (ensure_default_capture_device_unpinned env dry_run w f d Hu).
  destruct Hc as [Hc | Hc]; rewrite Hc; split; reflexivity.
Qed.

(** X13.  When the device is found but the configuration file cannot be
    written, the failure reaches the caller: the run raises
    [PermissionError] and leaves every file as it was. *)
Theorem ensure_default_capture_device_persist_failure
    (env : Env) (w : World) (f : File) (d : gmap string json) (b : string) :
  unpinned env w f d ->
  writable f = false ->
  choose_best_device (enumerated env) = Some b ->
  b <> EmptyString ->
  ensure_default_capture_device env false w =
  (log w (discovery_events env), Raise PermissionError).
Proof.
  intros Hu Hw Hc Hb.
  rewrite (ensure_default_capture_device_unpinned env false w f d Hu), Hc.
  destruct b as [|c b]; [contradiction |]. simpl negb. cbv iota.
  destruct Hu as (Hf & _). unfold write_file. simpl. now rewrite Hf, Hw.
Qed.

(** X14.  Once a run has written a device, it stays: provided the file
    can be read and the written text parses back to what was written,
    every later run, real or dry, returns that device without running a
    command or writing, whatever the commands would now answer. *)
Theorem ensure_default_capture_device_pin_is_stable
    (env : Env) (w : World) (f : File) (d : gmap string json) (b : string)
    (run : list string -> Z -> result CompletedProcess) (dry_run : bool) :
  unpinned env w f d ->
  writable f = true ->
  choose_best_device (enumerated env) = Some b ->
  b <> EmptyString ->
  json_loads env (json_dumps env false (pinned_cfg d b)) = Some (pinned_cfg d b) ->
  let w' := (ensure_default_capture_device env false w).1 in
  ensure_default_capture_device (with_commands env run) dry_run w' =
  (w', Ok (Some (JStr b))).
Proof.
  intros Hu Hw Hc Hb Hrt w'.
  destruct (ensure_default_capture_device_persists env w f d b Hu Hw Hc Hb) as [Hrun _].
  subst w'. rewrite Hrun. simpl fst.
  match goal with |- ensure_default_capture_device _ _ ?w1 = _ => set (w1' := w1) end.
  pose proof (ensure_default_capture_device_short (with_commands env run) dry_run w1')
    as Hshort.
  unfold loaded in Hshort. simpl in Hshort.
  rewrite lookup_insert_eq in Hshort. simpl in Hshort.
  destruct Hu as (_ & Hr & _ & Hs & _). rewrite Hr, Hrt in Hshort.
  unfold pinned_cfg in Hshort.
  assert (Hs' : source_is_not_capture (<["device" := JStr b]> d) = false).
  { unfold source_is_not_capture, dict_get in *.
    rewrite lookup_insert_ne by discriminate. exact Hs. }
  assert (Hd' : get_truthy (<["device" := JStr b]> d) "device" = true).
  { unfold get_truthy, dict_get. rewrite lookup_insert_eq. simpl.
    destruct b; [contradiction | reflexivity]. }
  rewrite Hs', Hd' in Hshort. unfold dict_get in Hshort.
  now rewrite lookup_insert_eq in Hshort.
Qed.


(** The sample: [config.json] asks for capture and pins nothing, and
    every command prints [HDMI Capture]. *)
Lemma unpinned_sample (can_write : bool) :
  unpinned MoreSamples.env_hdmi
    {| files := {[ "config.json" :=
                     {| text := "unpinned"; readable := true; writable := can_write |} ]};
       trace := [] |}
    {| text := "unpinned"; readable := true; writable := can_write |}
    MoreSamples.capture_config.
Proof.
  unfold unpinned. simpl.
  split; [apply lookup_singleton_eq |]. split; [reflexivity |]. split; [reflexivity |].
  split; vm_compute; reflexivity.
Qed.

Lemma enumerated_sample :
  choose_best_device (enumerated MoreSamples.env_hdmi) = Some "HDMI Capture".
Proof. vm_compute. reflexivity. Qed.

(** X10 at the sample. *)
Lemma ensure_default_capture_device_persists_witness :
  let env := MoreSamples.env_hdmi in
  let w := Samples.world_with_config "unpinned" in
  ensure_default_capture_device env false w =
  ({| files := <["config.json" := Samples.a_file "pinned"]> (files w);
      trace := [EvRun (powershell_argv ps_cmd) 6; EvChoose ["HDMI Capture"];
                EvWrite "config.json" "pinned"] |},
   Ok (Some (JStr "HDMI Capture"))) /\
  (forall k, k <> "device" ->
             <["device" := JStr "HDMI Capture"]> MoreSamples.capture_config !! k
             = MoreSamples.capture_config !! k).
Proof.
  apply (ensure_default_capture_device_persists MoreSamples.env_hdmi
           (Samples.world_with_config "unpinned") (Samples.a_file "unpinned")
           MoreSamples.capture_config "HDMI Capture").
  - exact (unpinned_sample true).
  - reflexivity.
  - exact enumerated_sample.
  - discriminate.
Defined.

(** X11 at the sample. *)
Lemma ensure_default_capture_device_dry_run_witness :
  let env := MoreSamples.env_hdmi in
  let w := Samples.world_with_config "unpinned" in
  ensure_default_capture_device env true w =
  (log w (discovery_events env), Ok (Some (JStr "HDMI Capture"))) /\
  files (ensure_default_capture_device env true w).1 = files w.
Proof.
  apply (ensure_default_capture_device_dry_run MoreSamples.env_hdmi
           (Samples.world_with_config "unpinned") (Samples.a_file "unpinned")
           MoreSamples.capture_config "HDMI Capture").
  - exact (unpinned_sample true).
  - exact enumerated_sample.
  - discriminate.
Defined.

Lemma unpinned_sample_no_commands :
  unpinned MoreSamples.env_no_commands (Samples.world_with_config "unpinned")
    (Samples.a_file "unpinned") MoreSamples.capture_config.
Proof.
  unfold unpinned. split; [vm_compute; reflexivity |]. split; [reflexivity |].
  split; [reflexivity |]. split; vm_compute; reflexivity.
Qed.

(** X12 at a sample: no command can be launched. *)
Lemma ensure_default_capture_device_nothing_found_witness :
  let env := MoreSamples.env_no_commands in
  let w := Samples.world_with_config "unpinned" in
  enumerated env = [] /\
  ensure_default_capture_device env false w =
  (log w (discovery_events env), Ok None) /\
  files (ensure_default_capture_device env false w).1 = files w.
Proof.
  assert (H : enumerated MoreSamples.env_no_commands = []) by (vm_compute; reflexivity).
  split; [exact H |].
  exact (ensure_default_capture_device_nothing_found MoreSamples.env_no_commands false
           (Samples.world_with_config "unpinned") (Samples.a_file "unpinned")
           MoreSamples.capture_config unpinned_sample_no_commands (or_introl H)).
Defined.

(** X13 at a sample: [config.json] is read-only. *)
Lemma ensure_default_capture_device_persist_failure_witness :
  let env := MoreSamples.env_hdmi in
  let w := MoreSamples.world_read_only "unpinned" in
  ensure_default_capture_device env false w =
  (log w (discovery_events env), Raise PermissionError).
Proof.
  apply (ensure_default_capture_device_persist_failure MoreSamples.env_hdmi
           (MoreSamples.world_read_only "unpinned")
           {| text := "unpinned"; readable := true; writable := false |}
           MoreSamples.capture_config "HDMI Capture").
  - exact (unpinned_sample false).
  - reflexivity.
  - exact enumerated_sample.
  - discriminate.
Defined.

(** X14 at the sample: after the run that pins [HDMI Capture], a run for
    which no command can be launched still returns it. *)
Lemma ensure_default_capture_device_pin_is_stable_witness :
  let env := MoreSamples.env_hdmi in
  let w' := (ensure_default_capture_device env false
               (Samples.world_with_config "unpinned")).1 in
  ensure_default_capture_device
    (with_commands env (fun _ _ => Raise FileNotFoundError)) false w' =
  (w', Ok (Some (JStr "HDMI Capture"))).
Proof.
  apply (ensure_default_capture_device_pin_is_stable MoreSamples.env_hdmi
           (Samples.world_with_config "unpinned") (Samples.a_file "unpinned")
           MoreSamples.capture_config "HDMI Capture"
           (fun _ _ => Raise FileNotFoundError) false).
  - exact (unpinned_sample true).
  - reflexivity.
  - exact enumerated_sample.
  - discriminate.
  - vm_compute. reflexivity.
Defined.





(** X17.  The main window starts the preview only for a pinned device:
    when its reading of the configuration at the selection's path starts
    the preview with [v], it has changed nothing, and the selection, real
    or dry, returns the same [v] without running anything. *)
Theorem preview_device_is_pinned_device
    (env : Env) (w : World) (v : json) (dry_run : bool) :
  (Preview.preview_device env (config_path env) w).2 = Ok (Some v) ->
  Preview.preview_device env (config_path env) w = (w, Ok (Some v)) /\
  ensure_default_capture_device env dry_run w = (w, Ok (Some v)).
Proof.
  pose proof (ensure_default_capture_device_short env dry_run w) as Hshort.
  unfold Preview.preview_device, try_except, read_file, loads, ret, raise, loaded in *.
  cbv [bind].
  destruct (files w !! config_path env) as [f |]; [|discriminate].
  destruct (readable f); [|discriminate].
  destruct (json_loads env (text f)) as [cfg |]; [|discriminate].
  destruct cfg as [| | | | | |d]; try discriminate.
  assert (Hs : Preview.source_is_capture d = negb (source_is_not_capture d)).
  { unfold Preview.source_is_capture, source_is_not_capture.
    destruct (dict_get d "source"); [now rewrite negb_involutive | reflexivity]. }
  rewrite Hs. destruct (source_is_not_capture d); simpl; [discriminate |].
  destruct (get_truthy d "device"); simpl; [|discriminate].
  intros E. injection E as E. rewrite E in *. split; [reflexivity | exact Hshort].
Qed.

(** X17 at a sample: the pinned configuration of C3. *)
Lemma preview_device_is_pinned_device_witness :
  let env := Samples.env_reading (Some (JDict Samples.pinned_config)) in
  let w := Samples.world_with_config "pinned" in
  Preview.preview_device env (config_path env) w = (w, Ok (Some (JStr "Elgato HD60"))) /\
  ensure_default_capture_device env false w = (w, Ok (Some (JStr "Elgato HD60"))).
Proof.
  apply (preview_device_is_pinned_device
           (Samples.env_reading (Some (JDict Samples.pinned_config)))
           (Samples.world_with_config "pinned") (JStr "Elgato HD60") false).
  vm_compute. reflexivity.
Defined.

End SelectionMore.

(** ** [ensure_config], continued *)

Section EnsureConfigMore.
Import Py Sys Main Recovery.

Lemma ensure_config_missing (env : Env) (path : Path) (w : World) :
  files w !! path_str path = None ->
  ensure_config env path w = (created env path w, Ok DEFAULT_CONFIG).
Proof.
  intros Hf. unfold ensure_config, file_exists, write_file, ret. cbv [bind].
  rewrite bool_decide_eq_false_2 by (rewrite Hf; intros [x Hx]; discriminate).
  simpl. now rewrite Hf.
Qed.

Lemma ensure_config_valid (env : Env) (path : Path) (w : World) (f : File) (v : json) :
  files w !! path_str path = Some f ->
  readable f = true ->
  json_loads env (text f) = Some v ->
  ensure_config env path w = (w, Ok v).
Proof.
  intros Hf Hr Hj. unfold ensure_config, file_exists, try_except, read_file, loads, ret.
  cbv [bind]. rewrite bool_decide_eq_true_2 by (rewrite Hf; now eexists).
  simpl. now rewrite Hf, Hr, Hj.
Qed.

Lemma ensure_config_recreates (env : Env) (path : Path) (w : World) (f : File) :
  name path <> EmptyString ->
  files w !! path_str path = Some f ->
  readable f = false \/ json_loads env (text f) = None ->
  ensure_config env path w = (recreated env path f w, Ok DEFAULT_CONFIG).
Proof.
  intros Hname Hf Hbad.
  assert (Hb : path_str {| parent := parent path; name := name path ++ ".bad" |}
               = path_str path ++ ".bad").
  { unfold path_str. simpl. now rewrite str_app_assoc. }
  assert (Hne : path_str path ++ ".bad" <> path_str path)
    by (apply str_app_neq; discriminate).
  assert (Hrecreate : recreate env path w = (recreated env path f w, Ok DEFAULT_CONFIG)).
  { unfold recreate, lift, rename_file, write_file, ret, recreated, default_file.
    cbv [bind]. rewrite (with_suffix_bad path Hname), Hb, Hf. simpl.
    rewrite lookup_insert_ne by exact Hne. rewrite lookup_delete_eq.
    now rewrite <- app_assoc. }
  unfold ensure_config, file_exists, try_except, read_file, loads, ret, raise.
  cbv [bind]. rewrite bool_decide_eq_true_2 by (rewrite Hf; now eexists).
  simpl. rewrite Hf.
  destruct Hbad as [Hr | Hj].
  - rewrite Hr. exact Hrecreate.
  - destruct (readable f); [rewrite Hj |]; exact Hrecreate.
Qed.



(** X19.  A file that holds JSON is left alone and its content is
    returned as it parses, whether it is a mapping or not. *)
Theorem ensure_config_returns_valid_content
    (env : Env) (path : Path) (w : World) (f : File) (v : json) :
  files w !! path_str path = Some f ->
  readable f = true ->
  json_loads env (text f) = Some v ->
  ensure_config env path w = (w, Ok v).
Proof. apply ensure_config_valid. Qed.

(** X19 at a sample: a file that holds a JSON list. *)
Lemma ensure_config_returns_valid_content_witness :
  let env := Samples.env_reading (Some (JList [])) in
  let w := Samples.world_with_config "[]" in
  ensure_config env Samples.config_json w = (w, Ok (JList [])).
Proof.
  apply (ensure_config_returns_valid_content
           (Samples.env_reading (Some (JList []))) Samples.config_json
           (Samples.world_with_config "[]") (Samples.a_file "[]") (JList []));
    reflexivity.
Defined.

(** X20.  A file that cannot be read is treated like a corrupt one, even
    when it holds JSON: it is moved aside under the [.bad] name, with its
    content and its permissions, and the defaults are written in its
    place. *)
Theorem ensure_config_backs_up_unreadable_file
    (env : Env) (path : Path) (w : World) (f : File) :
  name path <> EmptyString ->
  files w !! path_str path = Some f ->
  readable f = false ->
  exists w',
    ensure_config env path w = (w', Ok DEFAULT_CONFIG) /\
    files w' !! (path_str path ++ ".bad") = Some f /\
    files w' !! path_str path = Some (default_file env).
Proof.
  intros Hname Hf Hr. exists (recreated env path f w).
  split; [apply ensure_config_recreates; auto |].
  assert (Hne : path_str path ++ ".bad" <> path_str path)
    by (apply str_app_neq; discriminate).
  split; simpl.
  - rewrite lookup_insert_ne by congruence. apply lookup_insert_eq.
  - apply lookup_insert_eq.
Qed.

(** X20 at a sample: an unreadable file whose text would parse. *)
Lemma ensure_config_backs_up_unreadable_file_witness :
  let env := MoreSamples.env_hdmi in
  let w := MoreSamples.world_unreadable "pinned" in
  json_loads env "pinned" = Some (JDict MoreSamples.hdmi_config) /\
  exists w',
    ensure_config env Samples.config_json w = (w', Ok DEFAULT_CONFIG) /\
    files w' !! "config.json.bad"
      = Some {| text := "pinned"; readable := false; writable := true |} /\
    files w' !! "config.json" = Some (Samples.a_file "default").
Proof.
  split; [reflexivity |].
  apply (ensure_config_backs_up_unreadable_file MoreSamples.env_hdmi Samples.config_json
           (MoreSamples.world_unreadable "pinned")
           {| text := "pinned"; readable := false; writable := true |}).
  - discriminate.
  - reflexivity.
  - reflexivity.
Defined.



(** X22.  On a configuration that [ensure_config] has just created or
    recreated, capture is not asked for: the selection returns none and
    runs nothing, and the main window starts no preview. *)
Theorem fresh_config_is_inert
    (env : Env) (path : Path) (w : World) (dry_run : bool) :
  name path <> EmptyString ->
  path_str path = config_path env ->
  json_loads env (json_dumps env true DEFAULT_CONFIG) = Some DEFAULT_CONFIG ->
  match files w !! path_str path with
  | None => True
  | Some f => readable f = false \/ json_loads env (text f) = None
  end ->
  let w' := (ensure_config env path w).1 in
  Capture.ensure_default_capture_device env dry_run w' = (w', Ok None) /\
  Preview.preview_device env (config_path env) w' = (w', Ok None).
Proof.
  intros Hname Hpath Hrt Hfile w'.
  assert (Hw' : files w' !! config_path env = Some (default_file env)).
  { subst w'. rewrite <- Hpath.
    destruct (files w !! path_str path) as [f |] eqn:Hf.
    - rewrite (ensure_config_recreates env path w f Hname Hf Hfile).
      apply lookup_insert_eq.
    - rewrite (ensure_config_missing env path w Hf). apply lookup_insert_eq. }
  split.
  - pose proof (ensure_default_capture_device_short env dry_run w') as Hshort.
    unfold Design.loaded in Hshort. rewrite Hw' in Hshort. simpl in Hshort.
    rewrite Hrt in Hshort. exact Hshort.
  - unfold Preview.preview_device, try_except, read_file, loads, ret.
    cbv [bind]. rewrite Hw'. simpl. rewrite Hrt. reflexivity.
Qed.

(** X22 at a sample: an empty world. *)
Lemma fresh_config_is_inert_witness :
  let env := MoreSamples.env_hdmi in
  let w' := (ensure_config env Samples.config_json Design.empty_world).1 in
  Capture.ensure_default_capture_device env false w' = (w', Ok None) /\
  Preview.preview_device env (config_path env) w' = (w', Ok None).
Proof.
  apply (fresh_config_is_inert MoreSamples.env_hdmi Samples.config_json
           Design.empty_world false).
  - discriminate.
  - reflexivity.
  - reflexivity.
  - vm_compute. exact I.
Defined.

End EnsureConfigMore.

(** ** The capture thread, continued *)

Section CaptureThreadMore.
Import Py Window Acquisition.
Context {Frame QImage : Type} (to_qimage : Frame -> QImage).

Local Abbreviation State := (Window.State (Frame := Frame) (QImage := QImage)).
Local Abbreviation Cv2 := (Window.Cv2 (Frame := Frame)).

Lemma exec_cons (cv2 : Cv2) (t : Tid) (sched : list Tid) (s : State) :
  exec to_qimage cv2 (t :: sched) s = exec to_qimage cv2 sched (step to_qimage cv2 s t).
Proof. reflexivity. Qed.

Lemma exec_run_done (cv2 : Cv2) (n : nat) (s : State) (exc : option exn) :
  run_pc s = RDone exc -> exec to_qimage cv2 (repeat TRun n) s = s.
Proof.
  intros H. induction n as [|n IH]; [reflexivity |].
  rewrite exec_run_S. unfold step_run. now rewrite H.
Qed.

Lemma repeat_split (n m : nat) :
  (m <= n)%nat -> repeat TRun n = (repeat TRun m ++ repeat TRun (n - m))%list.
Proof.
  intros H. replace n with (m + (n - m))%nat at 1 by lia. apply repeat_app.
Qed.

(** *** The handle *)

Lemma handle_invariant_init (device : string) :
  handle_invariant (init device : State).
Proof. unfold handle_invariant, init. simpl. split; [reflexivity | lia]. Qed.

Lemma handle_invariant_step (cv2 : Cv2) (s : State) (t : Tid) :
  handle_invariant s -> handle_invariant (step to_qimage cv2 s t).
Proof.
  destruct s as [dev running cap pc spc reads em rel cl mark bmark].
  unfold handle_invariant. destruct t; simpl.
  - unfold step_run, note_boundary, cap_read, release_if_any; simpl.
    intros [Hcap Hrel].
    destruct pc; simpl in *.
    + destruct (cv2_present cv2); simpl; split; try assumption; try lia.
      now rewrite Hcap.
    + destruct (open_by_name cv2 _); simpl; split; try exact I; lia.
    + destruct cap as [[|] |]; simpl; split; try exact I; try reflexivity; lia.
    + destruct (open_by_index cv2 0); simpl; split; try exact I; lia.
    + destruct mark, bmark; simpl; destruct (running && _); simpl;
        split; try exact I; lia.
    + destruct cap as [[|] |]; simpl;
        try (destruct (device_read cv2 reads) as [e | [|] [fr |]]; simpl);
        split; try exact I; lia.
    + split; [exact I | lia].
    + split; [exact I | lia].
    + split; [exact I | lia].
    + destruct cap as [o |]; simpl; split; try discriminate; lia.
    + split; assumption.
  - unfold step_stop, clear_running, release_if_any; simpl.
    intros [Hcap Hrel].
    destruct spc; simpl in *; try (split; [exact Hcap | lia]).
    destruct cap as [o |]; simpl.
    + split; [|lia]. destruct pc; simpl in *; try exact I; try discriminate.
      reflexivity.
    + split; [exact Hcap | lia].
Qed.

Lemma handle_invariant_exec (cv2 : Cv2) (sched : list Tid) (s : State) :
  handle_invariant s -> handle_invariant (exec to_qimage cv2 sched s).
Proof.
  revert s; induction sched as [|t sched IH]; intros s H; [exact H |].
  rewrite exec_cons. apply IH. now apply handle_invariant_step.
Qed.

(** X23.  However [run] and [stop] are interleaved and whatever the
    backend does, no handle is left open when [run] has ended, the handle
    that the fallback open replaces is a closed one, and [release()] is
    called at most twice. *)
Theorem run_leaves_no_open_handle (cv2 : Cv2) (device : string) (sched : list Tid) :
  let s := exec to_qimage cv2 sched (init device) in
  (run_finished s = true -> _cap s <> Some true) /\
  (run_pc s = ROpenIndex -> _cap s = Some false) /\
  (release_calls s <= 2)%nat.
Proof.
  intros s.
  assert (H : handle_invariant s)
    by (apply handle_invariant_exec, handle_invariant_init).
  destruct H as [Hcap Hrel]. split; [|split].
  - unfold run_finished. destruct (run_pc s); try discriminate. now intros _.
  - intros Hpc. now rewrite Hpc in Hcap.
  - destruct (stop_pc s), (run_pc s); simpl in Hrel; lia.
Qed.

(** *** The frames *)

Lemma frames_invariant_init (cv2 : Cv2) (device : string) :
  frames_invariant to_qimage cv2 (init device).
Proof. reflexivity. Qed.

Lemma frames_invariant_step (cv2 : Cv2) (s : State) (t : Tid) :
  frames_invariant to_qimage cv2 s ->
  frames_invariant to_qimage cv2 (step to_qimage cv2 s t).
Proof.
  destruct s as [dev running cap pc spc reads em rel cl mark bmark].
  unfold frames_invariant. destruct t; simpl.
  - unfold step_run, note_boundary, cap_read, release_if_any; simpl.
    intros H. destruct pc; simpl in *.
    + now destruct (cv2_present cv2).
    + now destruct (open_by_name cv2 _).
    + now destruct cap as [[|] |].
    + now destruct (open_by_index cv2 0).
    + destruct mark, bmark; simpl; now destruct (running && _).
    + destruct cap as [[|] |]; simpl; try exact H.
      destruct (device_read cv2 reads) as [e | [|] [fr |]] eqn:E; simpl;
        try (rewrite E, app_nil_r; exact H).
      exists reads. repeat split; assumption.
    + exact H.
    + destruct H as [r [Hr [Hread Hem]]]. subst reads. simpl.
      rewrite Hread, map_app, Hem. reflexivity.
    + exact H.
    + now destruct cap.
    + exact H.
  - unfold step_stop, clear_running, release_if_any; simpl.
    intros H. destruct spc; simpl; try exact H.
    now destruct cap.
Qed.

Lemma frames_invariant_exec (cv2 : Cv2) (sched : list Tid) (s : State) :
  frames_invariant to_qimage cv2 s ->
  frames_invariant to_qimage cv2 (exec to_qimage cv2 sched s).
Proof.
  revert s; induction sched as [|t sched IH]; intros s H; [exact H |].
  rewrite exec_cons. apply IH. now apply frames_invariant_step.
Qed.

(** X24.  However [run] and [stop] are interleaved and whatever the
    backend does, the frames emitted so far, followed by the one that has
    been read and awaits its emission, are exactly the frames of the
    successful reads so far, converted, each once and in the order of the
    reads. *)
Theorem frames_emitted_in_acquisition_order
    (cv2 : Cv2) (device : string) (sched : list Tid) :
  let s := exec to_qimage cv2 sched (init device) in
  (emitted s ++ map to_qimage (in_flight (run_pc s)))%list =
  map to_qimage (frames_read cv2 (reads_done s)).
Proof.
  intros s.
  assert (H : frames_invariant to_qimage cv2 s)
    by (apply frames_invariant_exec, frames_invariant_init).
  unfold frames_invariant in H.
  destruct (run_pc s); simpl; rewrite ?app_nil_r; try exact H.
  destruct H as [r [Hr [Hread Hem]]]. rewrite Hr. simpl.
  now rewrite Hread, map_app, Hem.
Qed.

(** *** The loop left alone *)

Lemma frames_read_In (cv2 : Cv2) (k r : nat) (frame : Frame) :
  (k < r)%nat -> device_read cv2 k = Reads true (Some frame) ->
  In frame (frames_read cv2 r).
Proof.
  intros Hk Hread. induction r as [|r IH]; [lia |].
  simpl. apply in_or_app.
  destruct (Nat.eq_dec k r) as [-> | Hne].
  - right. rewrite Hread. now left.
  - left. apply IH. lia.
Qed.

Lemma streaming_alone_step (cv2 : Cv2) (s : State) :
  reads_never_raise cv2 ->
  streaming_alone s ->
  streaming_alone (step_run to_qimage cv2 s) /\
  (S (progress s) <= progress (step_run to_qimage cv2 s))%nat.
Proof.
  intros Hnr. destruct s as [dev running cap pc spc reads em rel cl mark bmark].
  unfold streaming_alone, progress, step_run, note_boundary, cap_read; simpl.
  intros (-> & -> & Hpc).
  destruct pc; simpl in Hpc; try discriminate; simpl.
  - destruct mark, bmark; simpl; repeat split; lia.
  - destruct (device_read cv2 reads) as [e | [|] [fr |]] eqn:E; simpl;
      try (repeat split; lia).
    exfalso. exact (Hnr reads e E).
  - repeat split; lia.
  - repeat split; lia.
  - repeat split; lia.
Qed.

Lemma streaming_alone_exec (cv2 : Cv2) (n : nat) (s : State) :
  reads_never_raise cv2 ->
  streaming_alone s ->
  streaming_alone (exec to_qimage cv2 (repeat TRun n) s) /\
  (progress s + n <= progress (exec to_qimage cv2 (repeat TRun n) s))%nat.
Proof.
  intros Hnr. revert s; induction n as [|n IH]; intros s H.
  - split; [exact H | simpl; lia].
  - rewrite exec_run_S.
    destruct (streaming_alone_step cv2 s Hnr H) as [H1 Hp1].
    destruct (IH _ H1) as [H2 Hp2]. split; [exact H2 | lia].
Qed.

Lemma run_opens_by_name (cv2 : Cv2) (device : string) :
  cv2_present cv2 = true ->
  open_by_name cv2 ("dshow:video=" ++ device) = Opens true ->
  exec to_qimage cv2 (repeat TRun 3) (init device) =
  {| device_name := device; _running := true; _cap := Some true;
     run_pc := RLoopCheck; stop_pc := SSetFlag;
     reads_done := 0; emitted := []; release_calls := 0; closes := 0;
     stop_mark := None; boundary_mark := None |}.
Proof.
  intros Hcv Hname. unfold exec, init. simpl.
  unfold step_run at 3; simpl. rewrite Hcv.
  unfold step_run at 2; simpl. rewrite Hname.
  unfold step_run; simpl. reflexivity.
Qed.

(** X25.  On a device that opens by name and whose reads never raise,
    [run] left alone never ends, however many reads fail; and the frame of
    a successful read number [k] has been emitted once [run] has taken
    [4 * k + 6] steps. *)
Theorem run_survives_failed_reads
    (cv2 : Cv2) (device : string) (n k : nat) (frame : Frame) :
  cv2_present cv2 = true ->
  open_by_name cv2 ("dshow:video=" ++ device) = Opens true ->
  reads_never_raise cv2 ->
  let s := exec to_qimage cv2 (repeat TRun n) (init device) in
  run_finished s = false /\
  (device_read cv2 k = Reads true (Some frame) -> (4 * k + 6 <= n)%nat ->
   In (to_qimage frame) (emitted s)).
Proof.
  intros Hcv Hname Hnr s.
  destruct (Nat.le_gt_cases 3 n) as [Hn | Hn].
  - assert (Hs : s = exec to_qimage cv2 (repeat TRun (n - 3))
                       (exec to_qimage cv2 (repeat TRun 3) (init device))).
    { subst s. now rewrite (repeat_split n 3 Hn), exec_app. }
    rewrite (run_opens_by_name cv2 device Hcv Hname) in Hs.
    match type of Hs with _ = exec _ _ _ ?s3 => set (s3' := s3) in Hs end.
    assert (H3 : streaming_alone s3') by (repeat split).
    destruct (streaming_alone_exec cv2 (n - 3) s3' Hnr H3) as [(_ & _ & Hloop) Hprog].
    rewrite <- Hs in Hloop, Hprog. change (progress s3') with 4%nat in Hprog.
    split.
    + unfold run_finished. destruct (run_pc s); try reflexivity; discriminate.
    + intros Hread Hk.
      assert (Hf : frames_invariant to_qimage cv2 s)
        by (apply frames_invariant_exec, frames_invariant_init).
      unfold frames_invariant in Hf. unfold progress in Hprog.
      destruct (run_pc s); simpl in Hloop; try discriminate.
      * rewrite Hf. apply in_map. apply (frames_read_In cv2 k _ frame); [lia | exact Hread].
      * rewrite Hf. apply in_map. apply (frames_read_In cv2 k _ frame); [lia | exact Hread].
      * rewrite Hf. apply in_map. apply (frames_read_In cv2 k _ frame); [lia | exact Hread].
      * destruct Hf as [r [Hr [_ Hem]]]. rewrite Hem. apply in_map.
        apply (frames_read_In cv2 k _ frame); [lia | exact Hread].
      * rewrite Hf. apply in_map. apply (frames_read_In cv2 k _ frame); [lia | exact Hread].
  - split; [|lia].
    subst s. unfold exec, init.
    destruct n as [|[|[|n]]]; try lia; simpl.
    + reflexivity.
    + unfold step_run; simpl. now rewrite Hcv.
    + unfold step_run at 2; simpl. rewrite Hcv.
      unfold step_run; simpl. now rewrite Hname.
Qed.

End CaptureThreadMore.

Section CaptureThreadMoreSamples.
Import Py Window Acquisition.

(** X25 at a sample: three failed reads, then frames; the frame of read
    3 is out after 18 steps. *)
Lemma run_survives_failed_reads_witness :
  let s := exec (fun n : nat => n) ThreadSamples.cv2_warming_up (repeat TRun 18)
             (init "USB Video Device") in
  run_finished s = false /\
  (device_read ThreadSamples.cv2_warming_up 3 = Reads true (Some 3%nat) ->
   (4 * 3 + 6 <= 18)%nat -> In 3%nat (emitted s)).
Proof.
  apply (run_survives_failed_reads (fun n : nat => n) ThreadSamples.cv2_warming_up
           "USB Video Device" 18 3 3%nat).
  - reflexivity.
  - reflexivity.
  - intros k e. simpl. destruct (k <? 3)%nat; discriminate.
Defined.

End CaptureThreadMoreSamples.

(** *** Edges of [run] *)

Section CaptureThreadEdges.
Import Py Window Acquisition.
Context {Frame QImage : Type} (to_qimage : Frame -> QImage).

Local Abbreviation State := (Window.State (Frame := Frame) (QImage := QImage)).
Local Abbreviation Cv2 := (Window.Cv2 (Frame := Frame)).

(** X26.  When the open by name itself raises, the exception leaves
    [run] and reaches the host: after three steps [run] has ended with
    that exception, without a handle, a frame or a release. *)
Theorem run_raises_when_name_open_raises
    (cv2 : Cv2) (device : string) (e : exn) (n : nat) :
  cv2_present cv2 = true ->
  open_by_name cv2 ("dshow:video=" ++ device) = OpenRaises e ->
  (3 <= n)%nat ->
  let s : State := exec to_qimage cv2 (repeat TRun n) (init device) in
  run_pc s = RDone (Some e) /\ _cap s = None /\ emitted s = [] /\
  release_calls s = 0%nat.
Proof.
  intros Hcv Hname Hn.
  assert (H : exec to_qimage cv2 (repeat TRun 3) (init device) =
              {| device_name := device; _running := true; _cap := None;
                 run_pc := RDone (Some e); stop_pc := SSetFlag;
                 reads_done := 0; emitted := []; release_calls := 0; closes := 0;
                 stop_mark := None; boundary_mark := None |}).
  { unfold exec, init. simpl.
    unfold step_run at 3; simpl. rewrite Hcv.
    unfold step_run at 2; simpl. rewrite Hname.
    unfold step_run; simpl. reflexivity. }
  intros s. subst s.
  rewrite (repeat_split n 3 Hn), exec_app, H.
  rewrite (exec_run_done to_qimage cv2 (n - 3) _ (Some e)) by reflexivity.
  repeat split.
Qed.

(** X27.  A thread that is stopped before it is started still opens the
    device when it is started: [stop] finds no handle to release, [run]
    opens the device by name, reads and emits nothing, and closes the
    device again in its [finally] block. *)
Theorem stop_before_start_still_opens
    (cv2 : Cv2) (device : string) (n : nat) :
  cv2_present cv2 = true ->
  open_by_name cv2 ("dshow:video=" ++ device) = Opens true ->
  (5 <= n)%nat ->
  let stopped : State := exec to_qimage cv2 [TStop; TStop; TStop] (init device) in
  let s : State := exec to_qimage cv2 (repeat TRun n) stopped in
  (stop_finished stopped = true /\ release_calls stopped = 0%nat) /\
  run_pc s = RDone None /\ reads_done s = 0%nat /\ emitted s = [] /\
  release_calls s = 1%nat /\ closes s = 1%nat /\ _cap s = Some false.
Proof.
  intros Hcv Hname Hn stopped.
  assert (H : exec to_qimage cv2 (repeat TRun 5) stopped =
              {| device_name := device; _running := false; _cap := Some false;
                 run_pc := RDone None; stop_pc := SDone;
                 reads_done := 0; emitted := []; release_calls := 1; closes := 1;
                 stop_mark := Some 0%nat; boundary_mark := Some 0%nat |}).
  { subst stopped. unfold exec, init. simpl.
    unfold step_stop, clear_running, release_if_any; simpl.
    unfold step_run at 5; simpl. rewrite Hcv.
    unfold step_run at 4; simpl. rewrite Hname.
    unfold step_run at 3; simpl.
    unfold step_run at 2; simpl.
    unfold step_run; simpl. reflexivity. }
  intros s. subst s.
  rewrite (repeat_split n 5 Hn), exec_app, H.
  rewrite (exec_run_done to_qimage cv2 (n - 5) _ None) by reflexivity.
  repeat split.
Qed.

End CaptureThreadEdges.

Section CaptureThreadEdgesSamples.
Import Py Window.

(** X26 at a sample. *)
Lemma run_raises_when_name_open_raises_witness :
  let s := exec (fun n : nat => n) ThreadSamples.cv2_name_raises (repeat TRun 10)
             (init "USB Video Device") in
  run_pc s = RDone (Some (OtherException "cv2.error")) /\ _cap s = None /\
  emitted s = [] /\ release_calls s = 0%nat.
Proof.
  apply (run_raises_when_name_open_raises (fun n : nat => n)
           ThreadSamples.cv2_name_raises "USB Video Device"
           (OtherException "cv2.error") 10); [reflexivity | reflexivity | lia].
Defined.

(** X27 at a sample. *)
Lemma stop_before_start_still_opens_witness :
  let stopped := exec (fun n : nat => n) cv2_working [TStop; TStop; TStop]
                   (init "USB Video Device") in
  let s := exec (fun n : nat => n) cv2_working (repeat TRun 8) stopped in
  (stop_finished stopped = true /\ release_calls stopped = 0%nat) /\
  run_pc s = RDone None /\ reads_done s = 0%nat /\ emitted s = [] /\
  release_calls s = 1%nat /\ closes s = 1%nat /\ _cap s = Some false.
Proof.
  apply (stop_before_start_still_opens (fun n : nat => n) cv2_working
           "USB Video Device" 8); [reflexivity | reflexivity | lia].
Defined.

(** X28 at a sample: the fallback open raises. *)
Lemma run_ends_when_index_open_raises_witness :
  let s := exec (fun n : nat => n) ThreadSamples.cv2_index_raises (repeat TRun 5)
             (init "USB Video Device") in
  run_pc s = RDone None /\ emitted s = [] /\ release_calls s = 1%nat.
Proof.
  apply (run_ends_when_index_open_raises (fun n : nat => n)
           ThreadSamples.cv2_index_raises "USB Video Device"
           (OtherException "cv2.error")); reflexivity.
Defined.

End CaptureThreadEdgesSamples.
